(** * Bike rental registry (src/app.ts): shallow embedding and verification

    The class [App] of src/app.ts keeps three arrays ([users], [bikes],
    [rents]) of JavaScript objects.  Objects are shared by reference: the
    caller's [Bike] and [User] objects are pushed as they are, and a [Rent]
    holds references to its bike and its user.  The embedding therefore has
    an object store for bikes and users, and the arrays hold references.

    Numbers are IEEE 754 binary64 values, as in JavaScript. *)

From Stdlib Require Import Floats.
From stdpp Require Import gmap strings list.

(** ** Data model *)

(** Object identity of a heap-allocated [Bike] or [User]. *)
Abbreviation ref := nat.

(** Modelled from the spec: src/location.ts is absent.  A latitude/longitude
    pair, embedded in its bike (value semantics). *)
Record Location : Type := mkLocation {
  latitude : float;
  longitude : float
}.

(** Modelled from the spec: src/bike.ts is absent.  [bike_id] is the
    optional [id] field, undefined until registration. *)
Record Bike : Type := mkBike {
  bike_id : option string;
  rate : float;
  available : bool;
  location : Location
}.

(** Modelled from the spec: src/user.ts is absent.  [profile] stands for the
    profile fields, which no operation reads or writes. *)
Record User : Type := mkUser {
  user_id : option string;
  email : string;
  password : string;
  profile : string
}.

(** A JavaScript [Date]: its time value in milliseconds, [getTime()]. *)
Record Date : Type := mkDate { getTime : float }.

(** Modelled from the spec: src/rent.ts is absent.  [new Rent(bike, user,
    start)] leaves [end] undefined. *)
Record Rent : Type := mkRent {
  rent_bike : ref;
  rent_user : ref;
  rent_start : Date;
  rent_end : option Date
}.

Definition new_Rent (bike user : ref) (start : Date) : Rent :=
  mkRent bike user start None.

(** What a [throw] carries: a plain [Error] with its message, or one of the
    error classes declared at the top of app.ts. *)
Inductive Exn : Type :=
  | Error (message : string)
  | RentNotFoundError
  | BikeNotFoundError
  | UnavailableBikeError.

(** The error kinds of the specification, as the code raises them. *)
Definition UserNotFound : Exn := Error "User not found.".
Definition DuplicateUser : Exn := Error "Duplicate user.".
Definition UserHasOpenRents : Exn := Error "User has open rents, cannot be removed.".
Definition UserDoesNotExist : Exn := Error "User does not exist.".
Definition UnavailableBike : Exn := Error "Unavailable bike.".
Definition BikeNotFound : Exn := BikeNotFoundError.
Definition RentNotFound : Exn := RentNotFoundError.

#[global] Instance Location_inhabited : Inhabited Location :=
  populate (mkLocation 0%float 0%float).
#[global] Instance Bike_inhabited : Inhabited Bike :=
  populate (mkBike None 0%float true inhabitant).
#[global] Instance User_inhabited : Inhabited User :=
  populate (mkUser None EmptyString EmptyString EmptyString).

(** The state of an [App] together with the objects it can reach.  Every
    [Rent] object is created by [rentBike] and stored in one slot of
    [rents], so that array is a list of records updated by index. *)
Record App : Type := mkApp {
  bikeObjs : gmap ref Bike;
  userObjs : gmap ref User;
  users : list ref;
  bikes : list ref;
  rents : list Rent
}.

(** [new App(rentRepo)] before the caller has built any object. *)
Definition new_App : App := mkApp ∅ ∅ [] [] [].

(** Reading a field through a reference. *)
Definition bikeAt (s : App) (r : ref) : Bike := bikeObjs s !!! r.
Definition userAt (s : App) (r : ref) : User := userObjs s !!! r.

(** ** Field assignments *)

Definition set_bike_id (v : option string) (b : Bike) : Bike :=
  mkBike v (rate b) (available b) (location b).
Definition set_available (v : bool) (b : Bike) : Bike :=
  mkBike (bike_id b) (rate b) v (location b).
Definition set_latitude (v : float) (b : Bike) : Bike :=
  mkBike (bike_id b) (rate b) (available b)
         (mkLocation v (longitude (location b))).
Definition set_longitude (v : float) (b : Bike) : Bike :=
  mkBike (bike_id b) (rate b) (available b)
         (mkLocation (latitude (location b)) v).
Definition set_user_id (v : option string) (u : User) : User :=
  mkUser v (email u) (password u) (profile u).
Definition set_password (v : string) (u : User) : User :=
  mkUser (user_id u) (email u) v (profile u).
Definition set_rent_end (v : option Date) (r : Rent) : Rent :=
  mkRent (rent_bike r) (rent_user r) (rent_start r) v.

Definition updBike (r : ref) (f : Bike → Bike) (s : App) : App :=
  mkApp (<[r := f (bikeAt s r)]> (bikeObjs s)) (userObjs s)
        (users s) (bikes s) (rents s).
Definition updUser (r : ref) (f : User → User) (s : App) : App :=
  mkApp (bikeObjs s) (<[r := f (userAt s r)]> (userObjs s))
        (users s) (bikes s) (rents s).
Definition updRent (i : nat) (f : Rent → Rent) (s : App) : App :=
  mkApp (bikeObjs s) (userObjs s) (users s) (bikes s)
        (alter f i (rents s)).
Definition pushUser (r : ref) (s : App) : App :=
  mkApp (bikeObjs s) (userObjs s) (users s ++ [r]) (bikes s) (rents s).
Definition pushBike (r : ref) (s : App) : App :=
  mkApp (bikeObjs s) (userObjs s) (users s) (bikes s ++ [r]) (rents s).
Definition pushRent (x : Rent) (s : App) : App :=
  mkApp (bikeObjs s) (userObjs s) (users s) (bikes s) (rents s ++ [x]).
Definition setUsers (l : list ref) (s : App) : App :=
  mkApp (bikeObjs s) (userObjs s) l (bikes s) (rents s).

(** [new Bike(...)] and [new User(...)] on the caller's side: the object is
    stored at an unused reference; the registry's arrays are untouched. *)
Definition newBike (b : Bike) (s : App) : ref * App :=
  let r := fresh (dom (bikeObjs s)) in
  (r, mkApp (<[r := b]> (bikeObjs s)) (userObjs s) (users s) (bikes s) (rents s)).
Definition newUser (u : User) (s : App) : ref * App :=
  let r := fresh (dom (userObjs s)) in
  (r, mkApp (bikeObjs s) (<[r := u]> (userObjs s)) (users s) (bikes s) (rents s)).

(** ** Computations that mutate the state and may throw

    A thrown exception keeps the mutations made before it. *)

Inductive Completion (A : Type) : Type :=
  | Normal (a : A)
  | Throw (e : Exn).
Arguments Normal {A} a.
Arguments Throw {A} e.

Definition M (A : Type) : Type := App → Completion A * App.

Definition ret {A} (a : A) : M A := λ s, (Normal a, s).
Definition throw {A} (e : Exn) : M A := λ s, (Throw e, s).
Definition bind {A B} (c : M A) (k : A → M B) : M B :=
  λ s, match c s with
       | (Normal a, s') => k a s'
       | (Throw e, s') => (Throw e, s')
       end.
Definition gets {A} (f : App → A) : M A := λ s, (Normal (f s), s).
Definition modify (f : App → App) : M unit := λ s, (Normal tt, f s).

Notation "'let*' x ':=' c 'in' k" := (bind c (λ x, k))
  (at level 10, x pattern, c at level 100, k at level 200).
Notation "c ';;;' k" := (bind c (λ _, k))
  (at level 100, k at level 200, right associativity).

(** [for (const x of l) body]. *)
Fixpoint for_of {A} (l : list A) (body : A → M unit) : M unit :=
  match l with
  | [] => ret tt
  | x :: l' => body x ;;; for_of l' body
  end.

(** ** Array helpers *)

(** First element that satisfies [p], with its position: the slot that
    [Array.prototype.find] returns a reference to. *)
Fixpoint findSlot {A} (p : A → bool) (l : list A) : option (nat * A) :=
  match l with
  | [] => None
  | x :: l' => if p x then Some (O, x) else prod_map S id <$> findSlot p l'
  end.

(** [Array.prototype.findIndex]: -1 when nothing matches. *)
Definition findIndex {A} (p : A → bool) (l : list A) : Z :=
  match findSlot p l with
  | Some (i, _) => Z.of_nat i
  | None => (-1)%Z
  end.

(** [l.splice(i, 1)] for [0 <= i]. *)
Definition splice1 {A} (i : Z) (l : list A) : list A :=
  take (Z.to_nat i) l ++ drop (S (Z.to_nat i)) l.

(** [o.id === s] for an optional identifier. *)
Definition id_is (o : option string) (s : string) : bool :=
  match o with
  | Some x => String.eqb x s
  | None => false
  end.

(** ** Collaborators *)

(** The interface [RentRepo]; the result may depend on the user objects. *)
Class RentRepo (R : Type) : Type :=
  findOpenRentsFor : R → gmap ref User → string → list Rent.

(** [FakeRentRepo]: filters its own private array, which starts empty. *)
Record FakeRentRepo : Type := mkFakeRentRepo { fake_rents : list Rent }.

Definition new_FakeRentRepo : FakeRentRepo := mkFakeRentRepo [].

#[global] Instance FakeRentRepo_RentRepo : RentRepo FakeRentRepo :=
  λ repo objs userEmail,
    List.filter
      (λ rent, String.eqb (email (objs !!! rent_user rent)) userEmail
               && negb (bool_decide (is_Some (rent_end rent))))
      (fake_rents repo).

(** A call of [rentRepo.findOpenRentsFor] as [removeUser] makes it: like any
    JavaScript call it returns an array or throws, and what it throws
    propagates.  An implementation in [RentRepo] is one that returns. *)
Class RentRepoCall (R : Type) : Type :=
  callFindOpenRentsFor : R → gmap ref User → string → Completion (list Rent).

#[global] Instance RentRepo_call {R : Type} `{RentRepo R} : RentRepoCall R :=
  λ repo objs userEmail, Normal (findOpenRentsFor repo objs userEmail).

(** An implementation of the interface whose method always throws. *)
Inductive BrokenRentRepo : Type := mkBrokenRentRepo.

#[global] Instance BrokenRentRepo_call : RentRepoCall BrokenRentRepo :=
  λ _ _ _, Throw (Error "Repository unavailable.").

(** Modelled from the spec: src/crypt.ts is absent.  The credential hasher,
    awaited to completion at each call. *)
Record Crypt : Type := mkCrypt {
  encrypt : string → string;
  compare : string → string → bool
}.

(** [diffHours] at the bottom of app.ts. *)
Definition diffHours (dt2 dt1 : Date) : float :=
  let diff := ((getTime dt2 - getTime dt1) / 1000)%float in
  let diff := (diff / (60 * 60))%float in
  PrimFloat.abs diff.

(** ** The operations of [App] *)

Section Operations.

Context {R : Type} `{RentRepoCall R}.
Variable rentRepo : R.
Variable crypt : Crypt.

(** [findUser] is declared to return [User | undefined]; it throws when
    nothing matches, so what it returns is always a user. *)
Definition findUser (email0 : string) : M (option ref) :=
  let* user := gets (λ s, List.find (λ user, String.eqb (email (userAt s user)) email0)
                                    (users s)) in
  match user with
  | None => throw (Error "User not found.")
  | Some _ => ret user
  end.

(** [crypto.randomUUID()] is outside the program: its result is the
    argument [newId].  The call is modelled as awaited to completion. *)
Definition registerUser (newId : string) (user : ref) : M string :=
  (let* l := gets users in
   for_of l (λ rUser,
     let* s := gets id in
     if String.eqb (email (userAt s rUser)) (email (userAt s user))
     then throw (Error "Duplicate user.")
     else ret tt)) ;;;
  modify (updUser user (set_user_id (Some newId))) ;;;
  let* encryptedPassword := gets (λ s, encrypt crypt (password (userAt s user))) in
  modify (updUser user (set_password encryptedPassword)) ;;;
  modify (pushUser user) ;;;
  ret newId.

(** The two parts of [registerUser] around its [await]: the first runs up to
    the call of [crypt.encrypt] and yields the password passed to it; the
    second runs when the hash arrives.  Other calls can run in between. *)
Definition registerUser_begin (newId : string) (user : ref) : M string :=
  (let* l := gets users in
   for_of l (λ rUser,
     let* s := gets id in
     if String.eqb (email (userAt s rUser)) (email (userAt s user))
     then throw (Error "Duplicate user.")
     else ret tt)) ;;;
  modify (updUser user (set_user_id (Some newId))) ;;;
  gets (λ s, password (userAt s user)).

Definition registerUser_resume (newId : string) (user : ref)
    (encryptedPassword : string) : M string :=
  modify (updUser user (set_password encryptedPassword)) ;;;
  modify (pushUser user) ;;;
  ret newId.

Definition authenticate (userEmail password0 : string) : M bool :=
  let* user := findUser userEmail in
  match user with
  | None => throw (Error "User not found.")
  | Some user => gets (λ s, compare crypt password0 (password (userAt s user)))
  end.

Definition registerBike (newId : string) (bike : ref) : M string :=
  modify (updBike bike (set_bike_id (Some newId))) ;;;
  modify (pushBike bike) ;;;
  ret newId.

Definition removeUser (email0 : string) : M unit :=
  let* userIndex := gets (λ s, findIndex (λ user, String.eqb (email (userAt s user)) email0)
                                         (users s)) in
  if negb (userIndex =? -1)%Z then
    let* openRents := (λ s, (callFindOpenRentsFor rentRepo (userObjs s) email0, s)) in
    if (0 <? Z.of_nat (length openRents))%Z then
      throw (Error "User has open rents, cannot be removed.")
    else
      modify (λ s, setUsers (splice1 userIndex (users s)) s) ;;;
      ret tt
  else throw (Error "User does not exist.").

Definition findBike (bikeId : string) : M ref :=
  let* bike := gets (λ s, List.find (λ bike, id_is (bike_id (bikeAt s bike)) bikeId)
                                    (bikes s)) in
  match bike with
  | None => throw BikeNotFoundError
  | Some bike => ret bike
  end.

(** [new Date()] is the argument [now]. *)
Definition rentBike (now : Date) (bikeId userEmail : string) : M unit :=
  let* bike := findBike bikeId in
  let* avail := gets (λ s, available (bikeAt s bike)) in
  if negb avail then throw (Error "Unavailable bike.")
  else
    let* user := findUser userEmail in
    match user with
    | None => throw (Error "User not found.")
    | Some user =>
        modify (updBike bike (set_available false)) ;;;
        let newRent := new_Rent bike user now in
        modify (pushRent newRent) ;;;
        ret tt
    end.

(** The predicate of [this.rents.find] in [returnBike]. *)
Definition rentMatches (s : App) (bikeId userEmail : string) (rent : Rent) : bool :=
  id_is (bike_id (bikeAt s (rent_bike rent))) bikeId
  && String.eqb (email (userAt s (rent_user rent))) userEmail
  && negb (bool_decide (is_Some (rent_end rent))).

(** [rent] is the slot that [find] returns; after [rent.end = now] the call
    [diffHours(rent.end, rent.start)] reads [now] and the unchanged start. *)
Definition returnBike (now : Date) (bikeId userEmail : string) : M float :=
  let* rent := gets (λ s, findSlot (rentMatches s bikeId userEmail) (rents s)) in
  match rent with
  | None => throw RentNotFoundError
  | Some (i, rent) =>
      modify (updRent i (set_rent_end (Some now))) ;;;
      modify (updBike (rent_bike rent) (set_available true)) ;;;
      let hours := diffHours now (rent_start rent) in
      let* r := gets (λ s, rate (bikeAt s (rent_bike rent))) in
      ret (hours * r)%float
  end.

Definition listUsers : M (list ref) := gets users.
Definition listBikes : M (list ref) := gets bikes.
Definition listRents : M (list Rent) := gets rents.

Definition moveBikeTo (bikeId : string) (location0 : Location) : M unit :=
  let* bike := findBike bikeId in
  modify (updBike bike (set_latitude (latitude location0))) ;;;
  modify (updBike bike (set_longitude (longitude location0))) ;;;
  ret tt.

Definition getBikeById (bikeId : string) : M ref :=
  let* bike := findBike bikeId in
  ret bike.

Definition getUserByEmail (email0 : string) : M (option ref) :=
  let* user := gets (λ s, List.find (λ user, String.eqb (email (userAt s user)) email0)
                                    (users s)) in
  ret user.

End Operations.

(** ** Vocabulary of the statements *)

(** The predicates of the [find] and [findIndex] calls. *)
Definition userWithEmail (s : App) (e : string) (u : ref) : bool :=
  String.eqb (email (userAt s u)) e.

Definition bikeWithId (s : App) (bikeId : string) (b : ref) : bool :=
  id_is (bike_id (bikeAt s b)) bikeId.

(** What the predicate of [returnBike] tests. *)
Definition openRentFor (s : App) (bikeId userEmail : string) (rent : Rent) : Prop :=
  bike_id (bikeAt s (rent_bike rent)) = Some bikeId ∧
  email (userAt s (rent_user rent)) = userEmail ∧
  rent_end rent = None.

(** No two slots of the user collection hold users with the same email. *)
Definition uniqueEmails (s : App) : Prop :=
  ∀ i j u v, users s !! i = Some u → users s !! j = Some v →
             email (userAt s u) = email (userAt s v) → i = j.

(** An open rent in the rent collection references bike [b]. *)
Definition openRentOn (s : App) (b : ref) : Prop :=
  ∃ rent, rent ∈ rents s ∧ rent_bike rent = b ∧ rent_end rent = None.

(** What holds of bikes and rents in every reachable state. *)
Record rentalInv (s : App) : Prop := mkRentalInv {
  inv_bikes_alloc : ∀ b, b ∈ bikes s → is_Some (bikeObjs s !! b);
  inv_rents_alloc : ∀ rent, rent ∈ rents s → is_Some (bikeObjs s !! rent_bike rent);
  inv_one_open : ∀ i j x y,
    rents s !! i = Some x → rents s !! j = Some y →
    rent_end x = None → rent_end y = None → rent_bike x = rent_bike y → i = j;
  inv_open_unavailable : ∀ rent,
    rent ∈ rents s → rent_end rent = None →
    available (bikeAt s (rent_bike rent)) = false
}.

(** Every unavailable bike object has an open rent. *)
Definition unavailableRented (s : App) : Prop :=
  ∀ b, is_Some (bikeObjs s !! b) → available (bikeAt s b) = false → openRentOn s b.

(** A bike object that exists and is unavailable only while an open rent
    references it. *)
Definition rentedWhenUnavailable (s : App) (b : ref) : Prop :=
  is_Some (bikeObjs s !! b) ∧
  (available (bikeAt s b) = false → openRentOn s b).

(** A [registerUser] call suspended at its [await]: what its second part
    will use when it resumes. *)
Record Suspended : Type := mkSuspended {
  susp_newId : string;
  susp_user : ref;
  susp_hash : string
}.

Section Steps.

Context {R : Type} `{RentRepo R}.
Variable rentRepo : R.
Variable crypt : Crypt.

(** The bikes that callers construct. *)
Variable created : Bike → Prop.

(** One action on the registry: the caller builds an object, or calls one
    of the six operations on objects it has built.  A call that throws is a
    step to the state the exception leaves behind.  Every call has
    completed before the next action starts: [registerUser] is awaited.
    [stepAsync] below also has the runs in which it is not. *)
Inductive step : App → App → Prop :=
  | step_newBike bike s :
      created bike → step s (newBike bike s).2
  | step_newUser user s :
      step s (newUser user s).2
  | step_registerUser newId user s :
      is_Some (userObjs s !! user) →
      step s (registerUser crypt newId user s).2
  | step_registerBike newId bike s :
      is_Some (bikeObjs s !! bike) →
      step s (registerBike newId bike s).2
  | step_rentBike now bikeId userEmail s :
      step s (rentBike now bikeId userEmail s).2
  | step_returnBike now bikeId userEmail s :
      step s (returnBike now bikeId userEmail s).2
  | step_removeUser email0 s :
      step s (removeUser rentRepo email0 s).2
  | step_moveBikeTo bikeId loc s :
      step s (moveBikeTo bikeId loc s).2.

Definition reachable (s : App) : Prop := rtc step new_App s.

(** Actions when callers do not wait for [registerUser]: besides the
    completed calls of [step], a [registerUser] call can run up to its
    [await] and stay suspended, and any suspended call can resume later. *)
Inductive stepAsync : App * list Suspended → App * list Suspended → Prop :=
  | async_call s s' q :
      step s s' → stepAsync (s, q) (s', q)
  | async_begin newId user pw s s' q :
      is_Some (userObjs s !! user) →
      registerUser_begin newId user s = (Normal pw, s') →
      stepAsync (s, q) (s', q ++ [mkSuspended newId user (encrypt crypt pw)])
  | async_resume k s q1 q2 :
      stepAsync (s, q1 ++ k :: q2)
        ((registerUser_resume (susp_newId k) (susp_user k) (susp_hash k) s).2,
         q1 ++ q2).

Definition reachableAsync (s : App) : Prop :=
  ∃ q, rtc stepAsync (new_App, []) (s, q).

(** The invariant carried along a run. *)
Definition fullInv (s : App) : Prop :=
  rentalInv s ∧
  ((∀ bike, created bike → available bike = true) → unavailableRented s).

(** A step that keeps the rents, keeps the availability of every existing
    bike object, and only adds objects that callers construct. *)
Definition availFrame (s s' : App) : Prop :=
  rents s' = rents s ∧
  (∀ r, is_Some (bikeObjs s !! r) →
        is_Some (bikeObjs s' !! r) ∧ available (bikeAt s' r) = available (bikeAt s r)) ∧
  (∀ b, b ∈ bikes s' → is_Some (bikeObjs s' !! b)) ∧
  (∀ r, is_Some (bikeObjs s' !! r) → is_Some (bikeObjs s !! r) ∨ created (bikeAt s' r)).

End Steps.

(** Stored users are objects the caller built, with pairwise different
    emails. *)
Record userInv (s : App) : Prop := mkUserInv {
  inv_users_alloc : ∀ u, u ∈ users s → is_Some (userObjs s !! u);
  inv_unique_emails : uniqueEmails s
}.

(** ** A concrete run *)

Definition crypt0 : Crypt :=
  mkCrypt (λ p, "hash:" +:+ p) (λ p h, String.eqb ("hash:" +:+ p) h).

Definition alice : User := mkUser None "alice@example.org" "secret" "Alice".
Definition bike0 : Bike := mkBike None 10 true (mkLocation 0 0).
Definition t0 : Date := mkDate 0.
Definition t1 : Date := mkDate 9000000.

(** The caller builds [alice] and [bike0] (both get reference 0), registers
    them, and rents the bike at time [t0]. *)
Definition run1 : App := (newUser alice new_App).2.
Definition run2 : App := (registerUser crypt0 "u-1" 0 run1).2.
Definition run3 : App := (newBike bike0 run2).2.
Definition run4 : App := (registerBike "b-1" 0 run3).2.
Definition run5 : App := (rentBike t0 "b-1" "alice@example.org" run4).2.

(** A caller's bike whose availability flag is already false. *)
Definition parkedBike : Bike := mkBike None 10 false (mkLocation 0 0).
Definition parked : App := (registerBike "b-2" 0 (newBike parkedBike new_App).2).2.

(** The run continued: the bike is returned at [t1]. *)
Definition run6 : App := (returnBike t1 "b-1" "alice@example.org" run5).2.

(** ** Vocabulary of the further properties *)

(** A rent record as it may look later: same bike, user and start, and an
    end that was set stays as it is. *)
Definition rentKept (r r' : Rent) : Prop :=
  rent_bike r' = rent_bike r ∧ rent_user r' = rent_user r ∧
  rent_start r' = rent_start r ∧
  (∀ d, rent_end r = Some d → rent_end r' = Some d).

(** The history only grows: registered bikes stay in place and every rent
    slot is kept. *)
Definition historyKept (s s' : App) : Prop :=
  bikes s `prefix_of` bikes s' ∧
  ∀ i r, rents s !! i = Some r → ∃ r', rents s' !! i = Some r' ∧ rentKept r r'.

(** Registered objects carry an identifier, and rents reference registered
    bikes. *)
Record registeredInv (s : App) : Prop := mkRegisteredInv {
  inv_bike_has_id : ∀ b, b ∈ bikes s → is_Some (bike_id (bikeAt s b));
  inv_user_has_id : ∀ u, u ∈ users s → is_Some (user_id (userAt s u));
  inv_rent_bike_registered : ∀ rent, rent ∈ rents s → rent_bike rent ∈ bikes s
}.

(** A run with a parked bike (reference 0) and a bike built available
    (reference 1), both registered. *)
Definition mixed1 : App := (newBike bike0 parked).2.
Definition mixed : App := (registerBike "b-3" 1 mixed1).2.

(** Two [registerUser] calls for alice's object, the second started while
    the first is suspended; then both resume. *)
Definition twice1 : App := (registerUser_begin "u-1" 0 run1).2.
Definition twice2 : App := (registerUser_begin "u-2" 0 twice1).2.
Definition twice3 : App := (registerUser_resume "u-1" 0 "hash:secret" twice2).2.
Definition twice : App := (registerUser_resume "u-2" 0 "hash:secret" twice3).2.

(** Membership in a collection of a concrete state, by evaluation. *)
Ltac eval_in H := apply list_elem_of_In in H; vm_compute in H.
Ltac eval_elem := apply list_elem_of_In; vm_compute; auto.
Ltac eval_is_Some := eexists; vm_compute; reflexivity.

(** ** Facts about the store and the array helpers *)

Section Store.

Implicit Types (s : App) (r : ref).

Lemma bikeAt_updBike s r f r' :
  bikeAt (updBike r f s) r' = if decide (r = r') then f (bikeAt s r) else bikeAt s r'.
Proof. unfold bikeAt, updBike; simpl. apply lookup_total_insert. Qed.

Lemma bikeAt_updBike_eq s r f : bikeAt (updBike r f s) r = f (bikeAt s r).
Proof. rewrite bikeAt_updBike. by destruct (decide (r = r)). Qed.

Lemma bikeAt_updBike_ne s r f r' : r ≠ r' → bikeAt (updBike r f s) r' = bikeAt s r'.
Proof. intros Hne. rewrite bikeAt_updBike. by destruct (decide (r = r')). Qed.

Lemma userAt_updUser s r f r' :
  userAt (updUser r f s) r' = if decide (r = r') then f (userAt s r) else userAt s r'.
Proof. unfold userAt, updUser; simpl. apply lookup_total_insert. Qed.

Lemma id_is_true o x : id_is o x = true ↔ o = Some x.
Proof.
  destruct o as [y|]; simpl; [|done].
  rewrite String.eqb_eq. split; congruence.
Qed.

Lemma id_is_false o x : id_is o x = false ↔ o ≠ Some x.
Proof.
  rewrite <- id_is_true. destruct (id_is o x); split; congruence.
Qed.

End Store.

Section Arrays.

Context {A : Type}.
Implicit Types (p : A → bool) (l : list A).

(** [findSlot] returns the first match: the slot holds the element, the
    element satisfies the predicate, and nothing before it does. *)
Lemma findSlot_Some p l i x :
  findSlot p l = Some (i, x) ↔
  l !! i = Some x ∧ p x = true ∧ ∀ j y, (j < i)%nat → l !! j = Some y → p y = false.
Proof.
  revert i. induction l as [|a l IH]; intros i; simpl.
  - split; [done | intros [? _]; done].
  - destruct (p a) eqn:Hpa.
    + split.
      * intros [= <- <-]. repeat split; [done | intros; lia].
      * intros (Hl & Hpx & Hfirst).
        destruct i as [|i]; [by simplify_eq/= |].
        specialize (Hfirst O a ltac:(lia) eq_refl). congruence.
    + destruct i as [|i].
      * split.
        -- intros ([k y] & _ & Heq)%fmap_Some. by simplify_eq/=.
        -- intros (Hl & Hpx & _). simplify_eq/=. congruence.
      * etransitivity; [|etransitivity; [apply (IH i) |]].
        -- split.
           ++ intros ([k y] & Hf & Heq)%fmap_Some. by simplify_eq/=.
           ++ intros Hf. by rewrite Hf.
        -- simpl. split; intros (Hl & Hpx & Hfirst); repeat split; try done.
           ++ intros [|j] z Hlt Hz; simplify_eq/=; [done |].
              apply (Hfirst j); [lia | done].
           ++ intros j z Hlt Hz. apply (Hfirst (S j)); [lia | done].
Qed.

Lemma findSlot_None p l :
  findSlot p l = None ↔ ∀ x, x ∈ l → p x = false.
Proof.
  induction l as [|a l IH]; simpl.
  - split; [intros _ x Hx; by apply elem_of_nil in Hx | done].
  - destruct (p a) eqn:Hpa.
    + split; [done |]. intros Hall.
      specialize (Hall a ltac:(left)). congruence.
    + destruct (findSlot p l) as [[k y]|]; simpl.
      * split; [done |]. intros Hall.
        assert (Some (k, y) = None) as Hbad; [|done].
        apply IH. intros x Hx. apply Hall. by right.
      * split; [|done]. intros _ x [->|Hx]%elem_of_cons; [done |].
        by apply IH.
Qed.

Lemma findSlot_is_Some p l x :
  x ∈ l → p x = true → ∃ i y, findSlot p l = Some (i, y).
Proof.
  intros Hx Hp.
  destruct (findSlot p l) as [[i y]|] eqn:Hf; [by eauto |].
  rewrite findSlot_None in Hf. specialize (Hf x Hx). congruence.
Qed.

(** [find] and [findSlot] pick the same element. *)
Lemma find_findSlot p l : List.find p l = snd <$> findSlot p l.
Proof.
  induction l as [|a l IH]; simpl; [done |].
  destruct (p a); [done |]. rewrite IH.
  by destruct (findSlot p l) as [[??]|].
Qed.

Lemma find_None_iff p l : List.find p l = None ↔ ∀ x, x ∈ l → p x = false.
Proof.
  rewrite find_findSlot, <- findSlot_None.
  by destruct (findSlot p l) as [[??]|].
Qed.

(** Pushing [x] and then searching finds [x] when it matches and every
    earlier match is [x] itself. *)
Lemma find_push p l x :
  p x = true → (∀ y, y ∈ l → p y = true → y = x) → List.find p (l ++ [x]) = Some x.
Proof.
  intros Hpx. induction l as [|a l IH]; intros Hall; simpl.
  - by rewrite Hpx.
  - destruct (p a) eqn:Hpa.
    + f_equal. apply Hall; [left | done].
    + apply IH. intros y Hy. apply Hall. by right.
Qed.

Lemma splice1_delete (i : nat) l : splice1 (Z.of_nat i) l = delete i l.
Proof. unfold splice1. by rewrite Nat2Z.id, delete_take_drop. Qed.

End Arrays.

(** ** Lookups: [getUserByEmail] against [findUser] *)

Section Lookups.

Implicit Types (s : App) (e : string).

Lemma getUserByEmail_run s e :
  getUserByEmail e s = (Normal (List.find (userWithEmail s e) (users s)), s).
Proof. reflexivity. Qed.

Lemma findUser_run s e :
  findUser e s =
    match List.find (userWithEmail s e) (users s) with
    | Some u => (Normal (Some u), s)
    | None => (Throw UserNotFound, s)
    end.
Proof.
  unfold findUser, bind, gets; simpl.
  fold (userWithEmail s e).
  destruct (List.find (userWithEmail s e) (users s)); reflexivity.
Qed.

Lemma find_userWithEmail_None s e :
  List.find (userWithEmail s e) (users s) = None ↔
  ∀ u, u ∈ users s → email (userAt s u) ≠ e.
Proof.
  split.
  - intros Hnone u Hin Heq.
    apply list_elem_of_In in Hin.
    pose proof (find_none _ _ Hnone u Hin) as Hf.
    unfold userWithEmail in Hf. apply String.eqb_neq in Hf. contradiction.
  - intros Hall.
    destruct (List.find (userWithEmail s e) (users s)) as [u|] eqn:Hf; [|done].
    apply find_some in Hf as [Hin Hp].
    apply list_elem_of_In in Hin. apply String.eqb_eq in Hp.
    destruct (Hall u Hin Hp).
Qed.

(** C9: with no user of that email, [getUserByEmail] returns the absent
    value without throwing and leaves the state alone, while [findUser]
    throws "User not found."; when a user has that email, both return the
    same user, who is in the collection and has that email. *)
Theorem C9_getUserByEmail_vs_findUser s e :
  ((∀ u, u ∈ users s → email (userAt s u) ≠ e) →
     getUserByEmail e s = (Normal None, s) ∧
     findUser e s = (Throw UserNotFound, s))
  ∧
  ((∃ u, u ∈ users s ∧ email (userAt s u) = e) →
     ∃ u, u ∈ users s ∧ email (userAt s u) = e ∧
          getUserByEmail e s = (Normal (Some u), s) ∧
          findUser e s = (Normal (Some u), s)).
Proof.
  rewrite getUserByEmail_run, findUser_run.
  split.
  - intros Hall. apply find_userWithEmail_None in Hall. rewrite Hall. done.
  - intros (u & Hin & He).
    destruct (List.find (userWithEmail s e) (users s)) as [v|] eqn:Hf.
    + exists v. apply find_some in Hf as [Hv Hp].
      apply list_elem_of_In in Hv. apply String.eqb_eq in Hp. done.
    + destruct (proj1 (find_userWithEmail_None s e) Hf u Hin He).
Qed.

End Lookups.

(** ** Bikes: registration, lookup and movement *)

Section Bikes.

Implicit Types (s : App) (b r : ref) (bikeId newId : string).

Lemma findBike_run s bikeId :
  findBike bikeId s =
    match List.find (bikeWithId s bikeId) (bikes s) with
    | Some b => (Normal b, s)
    | None => (Throw BikeNotFound, s)
    end.
Proof.
  unfold findBike, bind, gets; simpl. fold (bikeWithId s bikeId).
  by destruct (List.find (bikeWithId s bikeId) (bikes s)).
Qed.

Lemma getBikeById_run s bikeId : getBikeById bikeId s = findBike bikeId s.
Proof.
  unfold getBikeById, bind, ret.
  by destruct (findBike bikeId s) as [[b|e] s'].
Qed.

Lemma find_bike_Some s bikeId b :
  List.find (bikeWithId s bikeId) (bikes s) = Some b →
  b ∈ bikes s ∧ bike_id (bikeAt s b) = Some bikeId.
Proof.
  intros [Hin Hp]%find_some. split; [by apply list_elem_of_In |].
  by apply id_is_true.
Qed.

Lemma find_bike_None s bikeId :
  List.find (bikeWithId s bikeId) (bikes s) = None ↔
  ∀ r, r ∈ bikes s → bike_id (bikeAt s r) ≠ Some bikeId.
Proof.
  rewrite find_None_iff. unfold bikeWithId.
  split; intros Hall r Hr; apply id_is_false; auto.
Qed.

(** When identifiers designate one bike object, lookup by a registered
    bike's identifier returns that bike. *)
Lemma find_bike_unique s bikeId b :
  b ∈ bikes s → bike_id (bikeAt s b) = Some bikeId →
  (∀ r, r ∈ bikes s → bike_id (bikeAt s r) = Some bikeId → r = b) →
  List.find (bikeWithId s bikeId) (bikes s) = Some b.
Proof.
  intros Hin Hid Huniq.
  destruct (List.find (bikeWithId s bikeId) (bikes s)) as [r|] eqn:Hf.
  - apply find_bike_Some in Hf as [Hr Hrid]. f_equal. by apply Huniq.
  - rewrite find_bike_None in Hf. destruct (Hf b Hin Hid).
Qed.

Lemma registerBike_run s newId b :
  registerBike newId b s =
    (Normal newId, pushBike b (updBike b (set_bike_id (Some newId)) s)).
Proof. reflexivity. Qed.

Lemma moveBikeTo_run s bikeId loc :
  moveBikeTo bikeId loc s =
    match List.find (bikeWithId s bikeId) (bikes s) with
    | Some b => (Normal tt,
                 updBike b (set_longitude (longitude loc))
                   (updBike b (set_latitude (latitude loc)) s))
    | None => (Throw BikeNotFound, s)
    end.
Proof.
  unfold moveBikeTo, bind. rewrite findBike_run.
  by destruct (List.find (bikeWithId s bikeId) (bikes s)).
Qed.

(** Lookup by the identifier just assigned finds the bike just pushed,
    provided no other registered bike carries that identifier. *)
Lemma find_registered s newId b :
  (∀ r, r ∈ bikes s → r ≠ b → bike_id (bikeAt s r) ≠ Some newId) →
  let s' := pushBike b (updBike b (set_bike_id (Some newId)) s) in
  List.find (bikeWithId s' newId) (bikes s') = Some b.
Proof.
  intros Hfresh s'. subst s'. simpl.
  apply find_push.
  - unfold bikeWithId. apply id_is_true.
    change (bike_id (bikeAt (updBike b (set_bike_id (Some newId)) s) b) = Some newId).
    by rewrite bikeAt_updBike_eq.
  - intros y Hy Hp. destruct (decide (y = b)) as [|Hne]; [done |].
    unfold bikeWithId in Hp. apply id_is_true in Hp.
    change (bike_id (bikeAt (updBike b (set_bike_id (Some newId)) s) y) = Some newId) in Hp.
    rewrite bikeAt_updBike_ne in Hp by done.
    destruct (Hfresh y Hy Hne Hp).
Qed.

(** C7: round trip.  [registerBike] returns the identifier it was given by
    the generator; when no other registered bike carries that identifier,
    [getBikeById] on it succeeds with the bike just registered, whose rate,
    availability flag, latitude and longitude are those of the bike as
    passed in and whose identifier is the new one. *)
Theorem C7_registerBike_getBikeById_roundtrip s newId b :
  (∀ r, r ∈ bikes s → r ≠ b → bike_id (bikeAt s r) ≠ Some newId) →
  ∃ s', registerBike newId b s = (Normal newId, s') ∧
        getBikeById newId s' = (Normal b, s') ∧
        bike_id (bikeAt s' b) = Some newId ∧
        rate (bikeAt s' b) = rate (bikeAt s b) ∧
        available (bikeAt s' b) = available (bikeAt s b) ∧
        latitude (location (bikeAt s' b)) = latitude (location (bikeAt s b)) ∧
        longitude (location (bikeAt s' b)) = longitude (location (bikeAt s b)).
Proof.
  intros Hfresh. eexists. split; [apply registerBike_run |].
  split.
  - rewrite getBikeById_run, findBike_run.
    by rewrite (find_registered s newId b Hfresh).
  - change (bikeAt (pushBike b ?t) b) with (bikeAt t b).
    rewrite bikeAt_updBike_eq. done.
Qed.

(** C8: frame of [moveBikeTo].  With a bike of that identifier in the
    collection, the first such bike gets the given latitude and longitude
    and keeps its identifier, rate and availability; every other bike
    object, every user object and the three collections are unchanged.
    With no such bike, BikeNotFound is thrown and the state is unchanged. *)
Theorem C8_moveBikeTo_frame s bikeId loc :
  ((∃ r, r ∈ bikes s ∧ bike_id (bikeAt s r) = Some bikeId) →
     ∃ b s', b ∈ bikes s ∧ bike_id (bikeAt s b) = Some bikeId ∧
       moveBikeTo bikeId loc s = (Normal tt, s') ∧
       latitude (location (bikeAt s' b)) = latitude loc ∧
       longitude (location (bikeAt s' b)) = longitude loc ∧
       bike_id (bikeAt s' b) = bike_id (bikeAt s b) ∧
       rate (bikeAt s' b) = rate (bikeAt s b) ∧
       available (bikeAt s' b) = available (bikeAt s b) ∧
       (∀ r, r ≠ b → bikeObjs s' !! r = bikeObjs s !! r) ∧
       userObjs s' = userObjs s ∧ users s' = users s ∧
       bikes s' = bikes s ∧ rents s' = rents s)
  ∧
  ((∀ r, r ∈ bikes s → bike_id (bikeAt s r) ≠ Some bikeId) →
     moveBikeTo bikeId loc s = (Throw BikeNotFound, s)).
Proof.
  rewrite moveBikeTo_run. split.
  - intros (r & Hr & Hid).
    destruct (List.find (bikeWithId s bikeId) (bikes s)) as [b|] eqn:Hf.
    + apply find_bike_Some in Hf as [Hb Hbid].
      exists b. eexists. do 3 (split; [done |]).
      rewrite !bikeAt_updBike_eq. simpl. do 5 (split; [done |]).
      split; [|done].
      intros r' Hne. simpl. by rewrite !lookup_insert_ne.
    + rewrite find_bike_None in Hf. destruct (Hf r Hr Hid).
  - intros Hnone. apply find_bike_None in Hnone. by rewrite Hnone.
Qed.

End Bikes.

(** ** Rentals: [rentBike] and [returnBike] *)

Section Rentals.

Implicit Types (s : App) (b r u : ref) (bikeId userEmail : string) (now : Date).

Lemma rentBike_run s now bikeId userEmail :
  rentBike now bikeId userEmail s =
    match List.find (bikeWithId s bikeId) (bikes s) with
    | None => (Throw BikeNotFound, s)
    | Some b =>
        if available (bikeAt s b) then
          match List.find (userWithEmail s userEmail) (users s) with
          | None => (Throw UserNotFound, s)
          | Some u => (Normal tt,
                       pushRent (new_Rent b u now) (updBike b (set_available false) s))
          end
        else (Throw UnavailableBike, s)
    end.
Proof.
  unfold rentBike, bind. rewrite findBike_run.
  destruct (List.find (bikeWithId s bikeId) (bikes s)) as [b|]; [|done].
  simpl. destruct (available (bikeAt s b)); simpl; [|done].
  rewrite findUser_run.
  by destruct (List.find (userWithEmail s userEmail) (users s)).
Qed.

Lemma rentMatches_true s bikeId userEmail rent :
  rentMatches s bikeId userEmail rent = true ↔ openRentFor s bikeId userEmail rent.
Proof.
  unfold rentMatches, openRentFor.
  rewrite !andb_true_iff, id_is_true, String.eqb_eq, negb_true_iff.
  rewrite bool_decide_eq_false, <- eq_None_not_Some. tauto.
Qed.

Lemma rentMatches_false s bikeId userEmail rent :
  rentMatches s bikeId userEmail rent = false ↔ ¬ openRentFor s bikeId userEmail rent.
Proof.
  rewrite <- rentMatches_true.
  destruct (rentMatches s bikeId userEmail rent); split; congruence.
Qed.

Lemma returnBike_run s now bikeId userEmail :
  returnBike now bikeId userEmail s =
    match findSlot (rentMatches s bikeId userEmail) (rents s) with
    | None => (Throw RentNotFound, s)
    | Some (i, rent) =>
        (Normal (diffHours now (rent_start rent) * rate (bikeAt s (rent_bike rent)))%float,
         updBike (rent_bike rent) (set_available true)
           (updRent i (set_rent_end (Some now)) s))
    end.
Proof.
  unfold returnBike, bind, gets; simpl.
  destruct (findSlot (rentMatches s bikeId userEmail) (rents s)) as [[i rent]|]; [|done].
  simpl. unfold ret. do 2 f_equal.
  by rewrite bikeAt_updBike_eq.
Qed.

(** The hours of [diffHours]: |end - start| in seconds, over 3600. *)
Lemma diffHours_hours dt2 dt1 :
  diffHours dt2 dt1 =
    PrimFloat.abs ((getTime dt2 - getTime dt1) / 1000 / 3600)%float.
Proof. reflexivity. Qed.

Lemma bikeWithId_set_available s b v bikeId r :
  bikeWithId (updBike b (set_available v) s) bikeId r = bikeWithId s bikeId r.
Proof.
  unfold bikeWithId. rewrite bikeAt_updBike.
  by destruct (decide (b = r)) as [->|].
Qed.

Lemma find_pointwise {A} (p q : A → bool) (l : list A) :
  (∀ x, p x = q x) → List.find p l = List.find q l.
Proof.
  intros Hpq. induction l as [|a l IH]; simpl; [done |].
  by rewrite Hpq, IH.
Qed.

(** C10: a failing [rentBike] leaves the whole state as it was, and fails
    with BikeNotFound, UnavailableBike or UserNotFound.  In particular, when
    the identifier designates an available bike and no user has the email,
    the call throws UserNotFound in an unchanged state: the flag is still
    true and no rent was appended. *)
Theorem C10_rentBike_atomic_on_failure s now bikeId userEmail :
  (∀ e s', rentBike now bikeId userEmail s = (Throw e, s') →
     s' = s ∧ (e = BikeNotFound ∨ e = UnavailableBike ∨ e = UserNotFound))
  ∧
  (∀ b, getBikeById bikeId s = (Normal b, s) →
     available (bikeAt s b) = true →
     (∀ u, u ∈ users s → email (userAt s u) ≠ userEmail) →
     ∃ s', rentBike now bikeId userEmail s = (Throw UserNotFound, s') ∧
           s' = s ∧ available (bikeAt s' b) = true ∧ rents s' = rents s).
Proof.
  rewrite rentBike_run, getBikeById_run, findBike_run. split.
  - intros e s' Hrun.
    destruct (List.find (bikeWithId s bikeId) (bikes s)) as [b|];
      [|by simplify_eq; auto].
    destruct (available (bikeAt s b)); [|by simplify_eq; auto].
    destruct (List.find (userWithEmail s userEmail) (users s));
      by simplify_eq; auto.
  - intros b Hfind Hav Hnouser.
    destruct (List.find (bikeWithId s bikeId) (bikes s)) as [b'|]; [|done].
    simplify_eq. rewrite Hav.
    apply find_userWithEmail_None in Hnouser. rewrite Hnouser.
    by exists s.
Qed.

(** C6: registering an available bike and renting it to an existing user
    makes the bike unavailable, and every later [rentBike] on the same
    identifier throws UnavailableBike whatever the email; more generally, in
    any state, [rentBike] on the identifier of an unavailable registered
    bike throws UnavailableBike whatever the email, in an unchanged state.
    Identifiers are taken to designate one bike object, which is what the
    generator provides. *)
Theorem C6_rentBike_makes_unavailable s newId bikeId b now userEmail :
  (available (bikeAt s b) = true →
   (∀ r, r ∈ bikes s → r ≠ b → bike_id (bikeAt s r) ≠ Some newId) →
   (∃ u, u ∈ users s ∧ email (userAt s u) = userEmail) →
   ∃ s1 s2, registerBike newId b s = (Normal newId, s1) ∧
            rentBike now newId userEmail s1 = (Normal tt, s2) ∧
            available (bikeAt s2 b) = false ∧
            ∀ now' anyEmail,
              rentBike now' newId anyEmail s2 = (Throw UnavailableBike, s2))
  ∧
  (b ∈ bikes s → bike_id (bikeAt s b) = Some bikeId →
   available (bikeAt s b) = false →
   (∀ r, r ∈ bikes s → bike_id (bikeAt s r) = Some bikeId → r = b) →
   ∀ now' anyEmail, rentBike now' bikeId anyEmail s = (Throw UnavailableBike, s)).
Proof.
  split.
  - intros Hav Hfresh (u & Hu & Hemail).
    set (s1 := pushBike b (updBike b (set_bike_id (Some newId)) s)).
    assert (List.find (bikeWithId s1 newId) (bikes s1) = Some b) as Hfind
      by apply (find_registered s newId b Hfresh).
    assert (available (bikeAt s1 b) = true) as Hav1.
    { subst s1. change (bikeAt (pushBike b ?t) b) with (bikeAt t b).
      by rewrite bikeAt_updBike_eq. }
    destruct (List.find (userWithEmail s1 userEmail) (users s1)) as [v|] eqn:Hfu.
    2:{ rewrite find_userWithEmail_None in Hfu.
        destruct (Hfu u); [subst s1; simpl; set_solver | done]. }
    set (s2 := pushRent (new_Rent b v now) (updBike b (set_available false) s1)).
    assert (available (bikeAt s2 b) = false) as Hav2.
    { subst s2. change (bikeAt (pushRent ?x ?t) b) with (bikeAt t b).
      by rewrite bikeAt_updBike_eq. }
    assert (List.find (bikeWithId s2 newId) (bikes s2) = Some b) as Hfind2.
    { change (bikes s2) with (bikes s1). rewrite <- Hfind.
      apply find_pointwise. intros r.
      apply (bikeWithId_set_available s1 b false newId r). }
    exists s1, s2.
    split; [apply registerBike_run |].
    split; [by rewrite rentBike_run, Hfind, Hav1, Hfu |].
    split; [done |].
    intros now' anyEmail. by rewrite rentBike_run, Hfind2, Hav2.
  - intros Hb Hid Hav Huniq now' anyEmail.
    by rewrite rentBike_run, (find_bike_unique s bikeId b Hb Hid Huniq), Hav.
Qed.

(** C2: when some rent matches the bike identifier and the email and has no
    end, [returnBike] succeeds on the first such rent: its end becomes the
    current time, the other rents are untouched, its bike becomes available,
    and the fee is |now - start| in seconds over 3600, not rounded, times
    the bike's rate. *)
Theorem C2_returnBike_fee s now bikeId userEmail :
  (∃ rent, rent ∈ rents s ∧ openRentFor s bikeId userEmail rent) →
  ∃ i rent s',
    rents s !! i = Some rent ∧ openRentFor s bikeId userEmail rent ∧
    (∀ j y, (j < i)%nat → rents s !! j = Some y → ¬ openRentFor s bikeId userEmail y) ∧
    returnBike now bikeId userEmail s =
      (Normal (PrimFloat.abs ((getTime now - getTime (rent_start rent)) / 1000 / 3600)
               * rate (bikeAt s (rent_bike rent)))%float, s') ∧
    rents s' !! i = Some (mkRent (rent_bike rent) (rent_user rent)
                                 (rent_start rent) (Some now)) ∧
    (∀ j, j ≠ i → rents s' !! j = rents s !! j) ∧
    available (bikeAt s' (rent_bike rent)) = true.
Proof.
  intros (rent0 & Hin & Hopen). apply rentMatches_true in Hopen.
  destruct (findSlot_is_Some _ _ _ Hin Hopen) as (i & rent & Hf).
  pose proof Hf as (Hi & Hm & Hfirst)%findSlot_Some.
  exists i, rent. eexists.
  split; [done |]. split; [by apply rentMatches_true |].
  split.
  { intros j y Hlt Hj. apply rentMatches_false. eauto. }
  split; [by rewrite returnBike_run, Hf, diffHours_hours |].
  split; [simpl; by rewrite list_lookup_alter_eq, Hi |].
  split; [intros j Hne; simpl; by rewrite list_lookup_alter_ne |].
  by rewrite bikeAt_updBike_eq.
Qed.

End Rentals.

(** ** Users: [registerUser] and [removeUser] *)

Section Users.

Context {R : Type} `{RentRepo R}.
Variable rentRepo : R.
Variable crypt : Crypt.

Implicit Types (s : App) (u v user : ref) (e newId : string).

(** The duplicate check of [registerUser] reads the state and never writes
    it: it throws at the first stored user with the email searched for. *)
Lemma duplicate_loop s user l :
  for_of l (λ rUser,
      let* s0 := gets id in
      if String.eqb (email (userAt s0 rUser)) (email (userAt s0 user))
      then throw (Error "Duplicate user.")
      else ret tt) s =
    if existsb (userWithEmail s (email (userAt s user))) l
    then (Throw DuplicateUser, s) else (Normal tt, s).
Proof.
  induction l as [|a l IH]; simpl; [done |].
  unfold bind at 1. unfold bind at 1. unfold gets at 1. simpl.
  unfold userWithEmail at 1.
  destruct (String.eqb (email (userAt s a)) (email (userAt s user))); simpl; [done |].
  apply IH.
Qed.

Lemma registerUser_run s newId user :
  registerUser crypt newId user s =
    if existsb (userWithEmail s (email (userAt s user))) (users s)
    then (Throw DuplicateUser, s)
    else (Normal newId,
          pushUser user
            (updUser user (set_password (encrypt crypt (password (userAt s user))))
               (updUser user (set_user_id (Some newId)) s))).
Proof.
  unfold registerUser.
  unfold bind at 1. unfold bind at 1. unfold gets at 1.
  rewrite duplicate_loop.
  destruct (existsb _ _); [done |].
  unfold bind, modify, gets, ret. simpl.
  rewrite userAt_updUser. by destruct (decide (user = user)).
Qed.

Lemma existsb_userWithEmail s e l :
  existsb (userWithEmail s e) l = true ↔ ∃ u, u ∈ l ∧ email (userAt s u) = e.
Proof.
  rewrite existsb_exists. unfold userWithEmail.
  split; intros (u & Hu & He); exists u.
  - split; [by apply list_elem_of_In | by apply String.eqb_eq].
  - split; [by apply list_elem_of_In | by apply String.eqb_eq].
Qed.

(** C5: [registerUser] on an email already stored throws "Duplicate user."
    and leaves the state, hence every stored record and the collection, as
    it was.  On an email not yet stored it returns the identifier obtained
    from the generator, after assigning it to the user, replacing the
    password by its hash and appending the user; the user's email and
    profile, every other user object, the bikes and the rents are
    unchanged. *)
Theorem C5_registerUser s newId user :
  ((∃ u, u ∈ users s ∧ email (userAt s u) = email (userAt s user)) →
     registerUser crypt newId user s = (Throw DuplicateUser, s))
  ∧
  ((∀ u, u ∈ users s → email (userAt s u) ≠ email (userAt s user)) →
     ∃ s', registerUser crypt newId user s = (Normal newId, s') ∧
       users s' = users s ++ [user] ∧
       user_id (userAt s' user) = Some newId ∧
       password (userAt s' user) = encrypt crypt (password (userAt s user)) ∧
       email (userAt s' user) = email (userAt s user) ∧
       profile (userAt s' user) = profile (userAt s user) ∧
       (∀ r, r ≠ user → userObjs s' !! r = userObjs s !! r) ∧
       bikeObjs s' = bikeObjs s ∧ bikes s' = bikes s ∧ rents s' = rents s).
Proof.
  rewrite registerUser_run. split.
  - intros Hdup. apply existsb_userWithEmail in Hdup. by rewrite Hdup.
  - intros Hnew.
    destruct (existsb (userWithEmail s (email (userAt s user))) (users s)) eqn:Hex.
    { apply existsb_userWithEmail in Hex as (u & Hu & He). destruct (Hnew u Hu He). }
    eexists. split; [done |]. split; [done |].
    change (userAt (pushUser user ?t) user) with (userAt t user).
    rewrite !userAt_updUser.
    destruct (decide (user = user)); [|done]. simpl.
    do 4 (split; [done |]).
    split; [|done].
    intros r Hne. simpl. by rewrite !lookup_insert_ne.
Qed.

Lemma findSlot_user_None s e :
  findSlot (userWithEmail s e) (users s) = None ↔
  ∀ u, u ∈ users s → email (userAt s u) ≠ e.
Proof.
  rewrite findSlot_None. unfold userWithEmail.
  split; intros Hall u Hu; specialize (Hall u Hu).
  - by apply String.eqb_neq.
  - by apply String.eqb_neq.
Qed.

Lemma removeUser_run_call {Q : Type} `{RentRepoCall Q} (repo : Q) s e :
  removeUser repo e s =
    match findSlot (userWithEmail s e) (users s) with
    | None => (Throw UserDoesNotExist, s)
    | Some (i, _) =>
        match callFindOpenRentsFor repo (userObjs s) e with
        | Throw ex => (Throw ex, s)
        | Normal [] => (Normal tt, setUsers (delete i (users s)) s)
        | Normal (_ :: _) => (Throw UserHasOpenRents, s)
        end
    end.
Proof.
  unfold removeUser, bind, gets, findIndex; simpl.
  fold (userWithEmail s e).
  destruct (findSlot (userWithEmail s e) (users s)) as [[i u]|]; [|done].
  replace (Z.of_nat i =? -1)%Z with false by (symmetry; apply Z.eqb_neq; lia).
  simpl.
  destruct (callFindOpenRentsFor repo (userObjs s) e) as [[|x l]|ex]; simpl.
  - unfold modify, ret. by rewrite splice1_delete.
  - done.
  - done.
Qed.

Lemma removeUser_run s e :
  removeUser rentRepo e s =
    match findSlot (userWithEmail s e) (users s) with
    | None => (Throw UserDoesNotExist, s)
    | Some (i, _) =>
        match findOpenRentsFor rentRepo (userObjs s) e with
        | [] => (Normal tt, setUsers (delete i (users s)) s)
        | _ :: _ => (Throw UserHasOpenRents, s)
        end
    end.
Proof.
  rewrite removeUser_run_call.
  by destruct (findSlot (userWithEmail s e) (users s)) as [[i u]|].
Qed.

Lemma delete_keeps_other_slot {A} (l : list A) (i j : nat) (x : A) :
  l !! j = Some x → j ≠ i → x ∈ delete i l.
Proof.
  intros Hj Hne. apply list_elem_of_lookup.
  destruct (decide (j < i)%nat) as [Hlt|Hge].
  - exists j. by rewrite list_lookup_delete_lt.
  - destruct j as [|k]; [lia |]. exists k.
    rewrite list_lookup_delete_ge by lia. done.
Qed.

Lemma delete_from_other_slot {A} (l : list A) (i : nat) (x : A) :
  x ∈ delete i l → ∃ j, j ≠ i ∧ l !! j = Some x.
Proof.
  intros [k Hk]%list_elem_of_lookup.
  destruct (decide (k < i)%nat) as [Hlt|Hge].
  - rewrite list_lookup_delete_lt in Hk by done. exists k. split; [lia | done].
  - rewrite list_lookup_delete_ge in Hk by lia. exists (S k). split; [lia | done].
Qed.

(** C3 as amended: when a user with the email exists, [removeUser] throws
    "User has open rents, cannot be removed." exactly when the rent-lookup
    collaborator returns a non-empty array, and then the state is unchanged.
    Otherwise it removes the first user with that email from the collection
    and touches nothing else, and [listUsers] returns the shortened
    collection.  That collection holds no user with the email exactly when
    no other slot held one; so it holds none when emails are pairwise
    different. *)
Theorem C3_removeUser_open_rents s e :
  (∃ u, u ∈ users s ∧ email (userAt s u) = e) →
  ((removeUser rentRepo e s).1 = Throw UserHasOpenRents ↔
     findOpenRentsFor rentRepo (userObjs s) e ≠ [])
  ∧
  (findOpenRentsFor rentRepo (userObjs s) e ≠ [] →
     removeUser rentRepo e s = (Throw UserHasOpenRents, s))
  ∧
  (findOpenRentsFor rentRepo (userObjs s) e = [] →
     ∃ i u s',
       users s !! i = Some u ∧ email (userAt s u) = e ∧
       (∀ j w, (j < i)%nat → users s !! j = Some w → email (userAt s w) ≠ e) ∧
       removeUser rentRepo e s = (Normal tt, s') ∧
       users s' = delete i (users s) ∧
       userObjs s' = userObjs s ∧ bikeObjs s' = bikeObjs s ∧
       bikes s' = bikes s ∧ rents s' = rents s ∧
       listUsers s' = (Normal (delete i (users s)), s') ∧
       ((∀ v, v ∈ users s' → email (userAt s' v) ≠ e) ↔
        (∀ j w, users s !! j = Some w → email (userAt s w) = e → j = i)) ∧
       (uniqueEmails s → ∀ v, v ∈ users s' → email (userAt s' v) ≠ e)).
Proof.
  intros (u0 & Hu0 & He0). rewrite removeUser_run.
  destruct (findSlot (userWithEmail s e) (users s)) as [[i u]|] eqn:Hf.
  2:{ rewrite findSlot_user_None in Hf. destruct (Hf u0 Hu0 He0). }
  apply findSlot_Some in Hf as (Hi & Hp & Hfirst).
  apply String.eqb_eq in Hp.
  destruct (findOpenRentsFor rentRepo (userObjs s) e) as [|x l] eqn:Hopen.
  - split; [simpl; split; [done | intros Hne; by destruct Hne] |].
    split; [intros Hne; by destruct Hne |].
    intros _. exists i, u. eexists. do 2 (split; [done |]).
    split.
    { intros j w Hlt Hj. apply String.eqb_neq. by apply (Hfirst j w). }
    do 7 (split; [done |]).
    assert ((∀ v, v ∈ delete i (users s) → email (userAt s v) ≠ e) ↔
            (∀ j w, users s !! j = Some w → email (userAt s w) = e → j = i)) as Hiff.
    { split.
      - intros Hnone j w Hj Hw. destruct (decide (j = i)) as [|Hne]; [done |].
        destruct (Hnone w (delete_keeps_other_slot _ i j w Hj Hne) Hw).
      - intros Honly v Hv Hev.
        destruct (delete_from_other_slot _ i v Hv) as (j & Hne & Hj).
        destruct Hne. by apply (Honly j v). }
    split; [exact Hiff |].
    intros Huniq. apply Hiff. intros j w Hj Hw.
    apply (Huniq j i w u); [done | done | congruence].
  - split; [simpl; split; [done | done] |].
    split; [done |]. done.
Qed.

(** C4 as amended: for an email that no stored user has, [removeUser] throws
    "User does not exist." in an unchanged state without calling the
    rent-lookup collaborator: the outcome is the same for every
    implementation, one whose call throws included.  When [removeUser]
    ends with that error and a user has the email, or ends with "User not
    found.", the error is one the collaborator's call has thrown, not one
    of [removeUser]; with a collaborator that returns, "User does not
    exist." is thrown in no other case and "User not found." never. *)
Theorem C4_removeUser_absent_user {Q : Type} `{RentRepoCall Q} (repo : Q) s e :
  ((∀ u, u ∈ users s → email (userAt s u) ≠ e) →
     removeUser repo e s = (Throw UserDoesNotExist, s))
  ∧
  ((removeUser repo e s).1 = Throw UserDoesNotExist →
     (∀ u, u ∈ users s → email (userAt s u) ≠ e) ∨
     callFindOpenRentsFor repo (userObjs s) e = Throw UserDoesNotExist)
  ∧
  ((removeUser repo e s).1 = Throw UserNotFound →
     (∃ u, u ∈ users s ∧ email (userAt s u) = e) ∧
     callFindOpenRentsFor repo (userObjs s) e = Throw UserNotFound)
  ∧
  ((removeUser rentRepo e s).1 = Throw UserDoesNotExist →
     ∀ u, u ∈ users s → email (userAt s u) ≠ e)
  ∧
  (removeUser rentRepo e s).1 ≠ Throw UserNotFound.
Proof.
  assert (((removeUser rentRepo e s).1 = Throw UserDoesNotExist →
           ∀ u, u ∈ users s → email (userAt s u) ≠ e) ∧
          (removeUser rentRepo e s).1 ≠ Throw UserNotFound) as Hreturns.
  { rewrite removeUser_run.
    destruct (findSlot (userWithEmail s e) (users s)) as [[i u]|] eqn:Hf.
    - destruct (findOpenRentsFor rentRepo (userObjs s) e); simpl; done.
    - rewrite findSlot_user_None in Hf. done. }
  assert (((∀ u, u ∈ users s → email (userAt s u) ≠ e) →
             removeUser repo e s = (Throw UserDoesNotExist, s)) ∧
          ((removeUser repo e s).1 = Throw UserDoesNotExist →
             (∀ u, u ∈ users s → email (userAt s u) ≠ e) ∨
             callFindOpenRentsFor repo (userObjs s) e = Throw UserDoesNotExist) ∧
          ((removeUser repo e s).1 = Throw UserNotFound →
             (∃ u, u ∈ users s ∧ email (userAt s u) = e) ∧
             callFindOpenRentsFor repo (userObjs s) e = Throw UserNotFound))
    as (Habsent & Hexist & Hfound); [|tauto].
  rewrite removeUser_run_call.
  destruct (findSlot (userWithEmail s e) (users s)) as [[i u]|] eqn:Hf.
  - apply findSlot_Some in Hf as (Hi & Hp & _). apply String.eqb_eq in Hp.
    assert (u ∈ users s) as Hu by (apply list_elem_of_lookup; eauto).
    split; [intros Hnone; destruct (Hnone u Hu Hp) |].
    destruct (callFindOpenRentsFor repo (userObjs s) e) as [[|x l]|ex]; simpl.
    + split; [done | done].
    + split; [done | done].
    + split; [intros [= ->]; by right |].
      intros [= ->]. split; [by exists u | done].
  - rewrite findSlot_user_None in Hf. simpl.
    split; [done |]. split; [by left | done].
Qed.

End Users.

(** ** Reachable states and the availability invariant *)

Section Reachability.

Context {R : Type} `{RentRepo R}.
Variable rentRepo : R.
Variable crypt : Crypt.
Variable created : Bike → Prop.

Local Abbreviation step := (step rentRepo crypt created).
Local Abbreviation reachable := (reachable rentRepo crypt created).
Local Abbreviation fullInv := (fullInv created).
Local Abbreviation availFrame := (availFrame created).

Lemma fullInv_frame s s' : fullInv s → availFrame s s' → fullInv s'.
Proof.
  intros [[Hba Hra Hone Hopen] Hun] (Hrents & Hkeep & Hbikes & Hnew).
  split; [split |].
  - done.
  - intros rent Hin. rewrite Hrents in Hin. by apply Hkeep, Hra.
  - rewrite Hrents. apply Hone.
  - intros rent Hin Hend. rewrite Hrents in Hin.
    destruct (Hkeep _ (Hra rent Hin)) as [_ ->]. by apply Hopen.
  - intros Hcreated b Hb Hav. unfold openRentOn. rewrite Hrents.
    destruct (Hnew b Hb) as [Hold|Hc].
    + apply (Hun Hcreated b Hold). by destruct (Hkeep b Hold) as [_ <-].
    + apply Hcreated in Hc. congruence.
Qed.

Lemma availFrame_same s s' :
  rentalInv s →
  bikeObjs s' = bikeObjs s → bikes s' = bikes s → rents s' = rents s →
  availFrame s s'.
Proof.
  intros Hinv Ho Hb Hr. unfold availFrame, bikeAt. rewrite Ho, Hb, Hr.
  repeat split; auto. apply Hinv.
Qed.

Lemma availFrame_updBike s b f :
  rentalInv s → is_Some (bikeObjs s !! b) →
  (∀ x, available (f x) = available x) →
  availFrame s (updBike b f s).
Proof.
  intros Hinv Hb Hf. split; [done |]. split; [|split].
  - intros r Hr. split.
    + simpl. apply lookup_insert_is_Some'. by right.
    + rewrite bikeAt_updBike. destruct (decide (b = r)) as [->|]; [apply Hf | done].
  - intros r Hr. simpl. apply lookup_insert_is_Some'. right.
    by apply (inv_bikes_alloc s Hinv).
  - intros r Hr. left. simpl in Hr.
    apply lookup_insert_is_Some' in Hr as [<-|Hr]; done.
Qed.

Lemma availFrame_pushBike s b :
  rentalInv s → is_Some (bikeObjs s !! b) → availFrame s (pushBike b s).
Proof.
  intros Hinv Hb. split; [done |]. split; [|split].
  - intros r Hr. done.
  - intros r [Hr| ->%list_elem_of_singleton]%elem_of_app; simpl; [|done].
    by apply (inv_bikes_alloc s Hinv).
  - intros r Hr. by left.
Qed.

Lemma availFrame_newBike s bike :
  rentalInv s → created bike → availFrame s (newBike bike s).2.
Proof.
  intros Hinv Hc. unfold newBike. simpl.
  set (r := fresh (dom (bikeObjs s))).
  assert (bikeObjs s !! r = None) as Hfresh.
  { apply not_elem_of_dom. apply is_fresh. }
  split; [done |]. split; [|split].
  - intros r' [x Hr']. assert (r ≠ r') as Hne by congruence.
    split; simpl.
    + rewrite lookup_insert_ne by done. eauto.
    + unfold bikeAt; simpl. by rewrite lookup_total_insert_ne.
  - intros b Hb. simpl in *. apply lookup_insert_is_Some'. right.
    by apply (inv_bikes_alloc s Hinv).
  - intros r' Hr'. simpl in Hr'.
    apply lookup_insert_is_Some' in Hr' as [<-|Hr']; [right | by left].
    unfold bikeAt; simpl. by rewrite lookup_total_insert_eq.
Qed.

(** A successful [rentBike]: the bike was available, so it had no open
    rent; it now has exactly the new one. *)
Lemma fullInv_rent s b u now :
  fullInv s → b ∈ bikes s → available (bikeAt s b) = true →
  fullInv (pushRent (new_Rent b u now) (updBike b (set_available false) s)).
Proof.
  intros [[Hba Hra Hone Hopen] Hun] Hb Hav.
  assert (∀ rent, rent ∈ rents s → rent_end rent = None → rent_bike rent ≠ b) as Hfree.
  { intros rent Hin Hend Heq. specialize (Hopen rent Hin Hend). congruence. }
  split; [split |].
  - intros r Hr. simpl. apply lookup_insert_is_Some'. right. by apply Hba.
  - intros rent [Hin| ->%list_elem_of_singleton]%elem_of_app; simpl;
      apply lookup_insert_is_Some'; [right; by apply Hra | by left].
  - intros i j x y Hi Hj Hx Hy Hxy. simpl in Hi, Hj.
    apply lookup_snoc_Some in Hi as [[_ Hi]|[-> <-]];
      apply lookup_snoc_Some in Hj as [[_ Hj]|[-> <-]].
    + by apply (Hone i j x y).
    + simpl in Hxy. destruct (Hfree x); [by eapply list_elem_of_lookup_2 | done..].
    + simpl in Hxy. destruct (Hfree y); [by eapply list_elem_of_lookup_2 | done..].
    + done.
  - intros rent Hin Hend.
    change (bikeAt (pushRent ?x ?t) ?r) with (bikeAt t r).
    rewrite bikeAt_updBike. destruct (decide (b = rent_bike rent)); [done |].
    simpl in Hin. apply elem_of_app in Hin as [Hin| ->%list_elem_of_singleton].
    + by apply Hopen.
    + done.
  - intros Hcreated r Hr Hunav.
    change (bikeAt (pushRent ?x ?t) ?r) with (bikeAt t r) in Hunav.
    rewrite bikeAt_updBike in Hunav.
    destruct (decide (b = r)) as [<-|Hne].
    + exists (new_Rent b u now). simpl. split; [|done].
      apply elem_of_app. right. by apply list_elem_of_singleton.
    + simpl in Hr. apply lookup_insert_is_Some' in Hr as [?|Hr]; [done |].
      destruct (Hun Hcreated r Hr Hunav) as (rent & Hin & Hrb & Hend).
      exists rent. simpl. split; [|done]. apply elem_of_app. by left.
Qed.

(** A successful [returnBike]: the closed rent was the only open rent of
    its bike. *)
Lemma fullInv_return s i rent now :
  fullInv s → rents s !! i = Some rent → rent_end rent = None →
  fullInv (updBike (rent_bike rent) (set_available true)
             (updRent i (set_rent_end (Some now)) s)).
Proof.
  intros [[Hba Hra Hone Hopen] Hun] Hi Hend.
  set (b := rent_bike rent).
  assert (∀ j y, alter (set_rent_end (Some now)) i (rents s) !! j = Some y →
                 rent_end y = None → j ≠ i ∧ rents s !! j = Some y) as Hold.
  { intros j y Hj Hy. destruct (decide (j = i)) as [->|Hne].
    - rewrite list_lookup_alter_eq, Hi in Hj. by simplify_eq/=.
    - by rewrite list_lookup_alter_ne in Hj. }
  split; [split |].
  - intros r Hr. simpl. apply lookup_insert_is_Some'. right. by apply Hba.
  - intros y [j Hj]%list_elem_of_lookup. simpl in *.
    apply lookup_insert_is_Some'. right.
    destruct (decide (j = i)) as [->|Hne].
    + rewrite list_lookup_alter_eq, Hi in Hj. simplify_eq/=.
      apply Hra. by eapply list_elem_of_lookup_2.
    + rewrite list_lookup_alter_ne in Hj by done.
      apply Hra. by eapply list_elem_of_lookup_2.
  - intros j1 j2 x y Hj1 Hj2 Hx Hy Hxy. simpl in Hj1, Hj2.
    destruct (Hold j1 x Hj1 Hx) as [_ Hx1].
    destruct (Hold j2 y Hj2 Hy) as [_ Hy1].
    by apply (Hone j1 j2 x y).
  - intros y [j Hj]%list_elem_of_lookup Hy. simpl in Hj.
    destruct (Hold j y Hj Hy) as [Hne Hj'].
    rewrite bikeAt_updBike. destruct (decide (b = rent_bike y)) as [Heq|_].
    + destruct Hne. by apply (Hone j i y rent).
    + change (bikeAt (updRent ?k ?f ?t) ?r) with (bikeAt t r).
      apply Hopen; [by eapply list_elem_of_lookup_2 | done].
  - intros Hcreated r Hr Hunav.
    rewrite bikeAt_updBike in Hunav.
    destruct (decide (b = r)) as [<-|Hne]; [done |].
    change (bikeAt (updRent ?k ?f ?t) ?r) with (bikeAt t r) in Hunav.
    simpl in Hr. apply lookup_insert_is_Some' in Hr as [?|Hr]; [done |].
    destruct (Hun Hcreated r Hr Hunav) as (y & [j Hj]%list_elem_of_lookup & Hrb & Hy).
    exists y. split; [|done]. simpl.
    apply list_elem_of_lookup. exists j.
    rewrite list_lookup_alter_ne; [done |].
    intros ->. rewrite Hi in Hj. by simplify_eq.
Qed.

Lemma fullInv_step s s' : step s s' → fullInv s → fullInv s'.
Proof.
  intros Hstep Hinv. pose proof Hinv as [Hrental _].
  destruct Hstep as [bike s Hc|user s|newId user s Hu|newId bike s Hb
                     |now bikeId userEmail s|now bikeId userEmail s
                     |email0 s|bikeId loc s].
  - by apply (fullInv_frame s), availFrame_newBike.
  - by apply (fullInv_frame s), availFrame_same.
  - rewrite registerUser_run.
    destruct (existsb _ _); [done |].
    by apply (fullInv_frame s), availFrame_same.
  - rewrite registerBike_run. simpl.
    assert (fullInv (updBike bike (set_bike_id (Some newId)) s)) as Hmid.
    { by apply (fullInv_frame s), availFrame_updBike. }
    apply (fullInv_frame _ _ Hmid), availFrame_pushBike; [apply Hmid |].
    simpl. apply lookup_insert_is_Some'. by left.
  - rewrite rentBike_run.
    destruct (List.find (bikeWithId s bikeId) (bikes s)) as [b|] eqn:Hf; [|done].
    apply find_bike_Some in Hf as [Hb _].
    destruct (available (bikeAt s b)) eqn:Hav; [|done].
    destruct (List.find (userWithEmail s userEmail) (users s)) as [u|]; [|done].
    by apply fullInv_rent.
  - rewrite returnBike_run.
    destruct (findSlot (rentMatches s bikeId userEmail) (rents s)) as [[i rent]|] eqn:Hf;
      [|done].
    apply findSlot_Some in Hf as (Hi & Hm & _).
    apply rentMatches_true in Hm as (_ & _ & Hend).
    by apply fullInv_return.
  - rewrite removeUser_run.
    destruct (findSlot (userWithEmail s email0) (users s)) as [[i u]|]; [|done].
    destruct (findOpenRentsFor rentRepo (userObjs s) email0); [|done].
    by apply (fullInv_frame s), availFrame_same.
  - rewrite moveBikeTo_run.
    destruct (List.find (bikeWithId s bikeId) (bikes s)) as [b|] eqn:Hf; [|done].
    apply find_bike_Some in Hf as [Hb _].
    assert (is_Some (bikeObjs s !! b)) as Halloc by by apply Hrental.
    assert (fullInv (updBike b (set_latitude (latitude loc)) s)) as Hmid.
    { by apply (fullInv_frame s), availFrame_updBike. }
    apply (fullInv_frame _ _ Hmid), availFrame_updBike; [apply Hmid | | done].
    simpl. apply lookup_insert_is_Some'. by left.
Qed.

Lemma fullInv_new_App : fullInv new_App.
Proof.
  split; [split |].
  - intros b Hb. by apply elem_of_nil in Hb.
  - intros rent Hr. by apply elem_of_nil in Hr.
  - intros i j x y Hi. done.
  - intros rent Hr. by apply elem_of_nil in Hr.
  - intros _ b [x Hb]. simpl in Hb. by rewrite lookup_empty in Hb.
Qed.

Lemma reachable_fullInv s : reachable s → fullInv s.
Proof.
  unfold reachable. intros Hreach.
  apply (rtc_ind_r (R := step) fullInv new_App); [apply fullInv_new_App | | done].
  intros s1 s2 _ Hstep IH. by apply (fullInv_step s1).
Qed.

Lemma userInv_same s s' :
  userInv s → userObjs s' = userObjs s → users s' = users s → userInv s'.
Proof.
  intros [Ha Hu] Ho Hl. split.
  - rewrite Ho, Hl. apply Ha.
  - unfold uniqueEmails, userAt in *. rewrite Ho, Hl. apply Hu.
Qed.

Lemma userInv_newUser s user : userInv s → userInv (newUser user s).2.
Proof.
  intros [Ha Hu]. unfold newUser. simpl.
  set (r := fresh (dom (userObjs s))).
  assert (userObjs s !! r = None) as Hfresh.
  { apply not_elem_of_dom. apply is_fresh. }
  assert (∀ u, u ∈ users s →
            userAt (mkApp (bikeObjs s) (<[r:=user]> (userObjs s))
                          (users s) (bikes s) (rents s)) u = userAt s u) as Hsame.
  { intros u [x Hx]%Ha. unfold userAt; simpl.
    apply lookup_total_insert_ne. congruence. }
  split.
  - intros u Hin. simpl. apply lookup_insert_is_Some'. right. by apply Ha.
  - intros i j u v Hi Hj. simpl in Hi, Hj.
    rewrite !Hsame by (by eapply list_elem_of_lookup_2).
    by apply Hu.
Qed.

Lemma userInv_register s newId user :
  userInv s → is_Some (userObjs s !! user) →
  existsb (userWithEmail s (email (userAt s user))) (users s) = false →
  userInv (pushUser user
             (updUser user (set_password (encrypt crypt (password (userAt s user))))
                (updUser user (set_user_id (Some newId)) s))).
Proof.
  intros [Ha Hu] Huser Hnew.
  set (s' := pushUser user _).
  assert (∀ r, email (userAt s' r) = email (userAt s r)) as Hemail.
  { intros r. subst s'. change (userAt (pushUser user ?t) r) with (userAt t r).
    rewrite !userAt_updUser. repeat case_decide; by simplify_eq. }
  assert (∀ u, u ∈ users s → email (userAt s u) ≠ email (userAt s user)) as Hother.
  { intros u Hin Heq.
    assert (existsb (userWithEmail s (email (userAt s user))) (users s) = true)
      by (apply existsb_userWithEmail; eauto).
    congruence. }
  split.
  - intros u Hin. simpl. rewrite !lookup_insert_is_Some'.
    simpl in Hin. apply elem_of_app in Hin as [Hin| ->%list_elem_of_singleton]; auto.
  - intros i j u v Hi Hj. rewrite !Hemail. simpl in Hi, Hj.
    apply lookup_snoc_Some in Hi as [[_ Hi]|[-> <-]];
      apply lookup_snoc_Some in Hj as [[_ Hj]|[-> <-]]; intros Heq.
    + by apply (Hu i j u v).
    + destruct (Hother u); [by eapply list_elem_of_lookup_2 | done].
    + destruct (Hother v); [by eapply list_elem_of_lookup_2 | done].
    + done.
Qed.

Lemma userInv_delete s i :
  userInv s → userInv (setUsers (delete i (users s)) s).
Proof.
  intros [Ha Hu].
  assert (∀ j u, delete i (users s) !! j = Some u →
                 ∃ k, users s !! k = Some u ∧ k = if decide (j < i)%nat then j else S j)
    as Hidx.
  { intros j u Hj. destruct (decide (j < i)%nat).
    - rewrite list_lookup_delete_lt in Hj by done. eauto.
    - rewrite list_lookup_delete_ge in Hj by lia. eauto. }
  split.
  - intros u [j Hj]%list_elem_of_lookup. simpl in *.
    destruct (Hidx j u Hj) as (k & Hk & _).
    apply Ha. by eapply list_elem_of_lookup_2.
  - intros j1 j2 u v Hj1 Hj2 Heq. simpl in Hj1, Hj2.
    change (email (userAt s u) = email (userAt s v)) in Heq.
    destruct (Hidx j1 u Hj1) as (k1 & Hk1 & Heq1).
    destruct (Hidx j2 v Hj2) as (k2 & Hk2 & Heq2).
    assert (k1 = k2) by by apply (Hu k1 k2 u v).
    repeat case_decide; lia.
Qed.

Lemma userInv_step s s' : step s s' → userInv s → userInv s'.
Proof.
  intros Hstep Hinv.
  destruct Hstep as [bike s Hc|user s|newId user s Hu|newId bike s Hb
                     |now bikeId userEmail s|now bikeId userEmail s
                     |email0 s|bikeId loc s].
  - by apply (userInv_same s).
  - by apply userInv_newUser.
  - rewrite registerUser_run.
    destruct (existsb _ _) eqn:Hex; [done |]. by apply userInv_register.
  - by apply (userInv_same s).
  - rewrite rentBike_run.
    destruct (List.find (bikeWithId s bikeId) (bikes s)) as [b|]; [|done].
    destruct (available (bikeAt s b)); [|done].
    destruct (List.find (userWithEmail s userEmail) (users s)); [|done].
    by apply (userInv_same s).
  - rewrite returnBike_run.
    destruct (findSlot _ _) as [[i rent]|]; [|done].
    by apply (userInv_same s).
  - rewrite removeUser_run.
    destruct (findSlot (userWithEmail s email0) (users s)) as [[i u]|]; [|done].
    destruct (findOpenRentsFor rentRepo (userObjs s) email0); [|done].
    by apply userInv_delete.
  - rewrite moveBikeTo_run.
    destruct (List.find (bikeWithId s bikeId) (bikes s)) as [b|]; [|done].
    by apply (userInv_same s).
Qed.

(** In every state reachable by completed calls (the runs of [step]) the
    stored users have pairwise different emails. *)
Lemma reachable_uniqueEmails s : reachable s → uniqueEmails s.
Proof.
  unfold reachable. intros Hreach.
  apply inv_unique_emails.
  apply (rtc_ind_r (R := step) userInv new_App); [| | done].
  - split; [intros u Hu; by apply elem_of_nil in Hu | intros i j u v Hi; done].
  - intros s1 s2 _ Hstep IH. by apply (userInv_step s1).
Qed.

(** Steps that keep rents and availability keep the bike as it is. *)
Lemma rentedWhenUnavailable_frame s s' b :
  availFrame s s' → rentedWhenUnavailable s b → rentedWhenUnavailable s' b.
Proof.
  intros (Hrents & Hkeep & _ & _) [Hb Hgood].
  destruct (Hkeep b Hb) as [Hb' Hav]. split; [done |].
  intros Hun. rewrite Hav in Hun. unfold openRentOn. rewrite Hrents.
  exact (Hgood Hun).
Qed.

Lemma rentedWhenUnavailable_step s s' b :
  step s s' → fullInv s → rentedWhenUnavailable s b → rentedWhenUnavailable s' b.
Proof.
  intros Hstep Hinv Hgood. pose proof Hinv as [Hrental _].
  destruct Hstep as [bike s Hc|user s|newId user s Hu|newId bike s Hb
                     |now bikeId userEmail s|now bikeId userEmail s
                     |email0 s|bikeId loc s].
  - apply (rentedWhenUnavailable_frame s); [by apply availFrame_newBike | done].
  - apply (rentedWhenUnavailable_frame s); [by apply availFrame_same | done].
  - rewrite registerUser_run.
    destruct (existsb _ _); [done |].
    apply (rentedWhenUnavailable_frame s); [by apply availFrame_same | done].
  - rewrite registerBike_run. simpl.
    assert (availFrame s (updBike bike (set_bike_id (Some newId)) s)) as Hmid
      by by apply availFrame_updBike.
    apply (rentedWhenUnavailable_frame (updBike bike (set_bike_id (Some newId)) s)).
    + apply availFrame_pushBike; [by apply (fullInv_frame s) |].
      simpl. apply lookup_insert_is_Some'. by left.
    + by apply (rentedWhenUnavailable_frame s).
  - rewrite rentBike_run.
    destruct (List.find (bikeWithId s bikeId) (bikes s)) as [b0|]; [|done].
    destruct (available (bikeAt s b0)); [|done].
    destruct (List.find (userWithEmail s userEmail) (users s)) as [u|]; [|done].
    destruct Hgood as [Halloc Hgood]. cbn [snd]. split.
    + simpl. apply lookup_insert_is_Some'. by right.
    + change (bikeAt (pushRent ?x ?t) b) with (bikeAt t b).
      rewrite bikeAt_updBike. destruct (decide (b0 = b)) as [->|Hne].
      * intros _. exists (new_Rent b u now). simpl. split; [|done].
        apply elem_of_app. right. by apply list_elem_of_singleton.
      * intros Hun. destruct (Hgood Hun) as (y & Hy & Hyb & Hyend).
        exists y. simpl. split; [|done]. apply elem_of_app. by left.
  - rewrite returnBike_run.
    destruct (findSlot (rentMatches s bikeId userEmail) (rents s)) as [[i rent]|] eqn:Hf;
      [|done].
    apply findSlot_Some in Hf as (Hi & _).
    destruct Hgood as [Halloc Hgood]. cbn [snd]. split.
    + simpl. apply lookup_insert_is_Some'. by right.
    + rewrite bikeAt_updBike. destruct (decide (rent_bike rent = b)) as [Heq|Hne]; [done |].
      change (bikeAt (updRent ?k ?f ?t) b) with (bikeAt t b).
      intros Hun. destruct (Hgood Hun) as (y & [j Hj]%list_elem_of_lookup & Hyb & Hyend).
      exists y. split; [|done]. simpl.
      apply list_elem_of_lookup. exists j.
      rewrite list_lookup_alter_ne; [done |].
      intros ->. rewrite Hi in Hj. by simplify_eq.
  - rewrite removeUser_run.
    destruct (findSlot (userWithEmail s email0) (users s)) as [[i u]|]; [|done].
    destruct (findOpenRentsFor rentRepo (userObjs s) email0); [|done].
    apply (rentedWhenUnavailable_frame s); [by apply availFrame_same | done].
  - rewrite moveBikeTo_run.
    destruct (List.find (bikeWithId s bikeId) (bikes s)) as [b0|] eqn:Hf; [|done].
    apply find_bike_Some in Hf as [Hb0 _].
    assert (is_Some (bikeObjs s !! b0)) as Halloc by by apply Hrental.
    assert (availFrame s (updBike b0 (set_latitude (latitude loc)) s)) as Hmid
      by by apply availFrame_updBike.
    apply (rentedWhenUnavailable_frame (updBike b0 (set_latitude (latitude loc)) s)).
    + apply availFrame_updBike; [by apply (fullInv_frame s) | | done].
      simpl. apply lookup_insert_is_Some'. by left.
    + by apply (rentedWhenUnavailable_frame s).
Qed.

Lemma rentedWhenUnavailable_run s1 s b :
  rtc step s1 s → reachable s1 → rentedWhenUnavailable s1 b →
  rentedWhenUnavailable s b.
Proof.
  intros Hrun Hreach Hgood.
  assert (reachable s ∧ rentedWhenUnavailable s b) as [_ ?]; [|done].
  revert s Hrun. apply (rtc_ind_r (R := step)); [done |].
  intros s2 s3 _ Hstep [Hr2 Hg2]. split.
  - by eapply rtc_r.
  - apply (rentedWhenUnavailable_step s2); [done | by apply reachable_fullInv | done].
Qed.

Lemma rentedWhenUnavailable_newBike s bike :
  available bike = true →
  rentedWhenUnavailable (newBike bike s).2 (newBike bike s).1.
Proof.
  intros Hav. unfold newBike. simpl. split.
  - simpl. apply lookup_insert_is_Some'. by left.
  - unfold bikeAt. simpl. rewrite lookup_total_insert_eq. congruence.
Qed.

(** Only the construction of a bike adds a bike object. *)
Lemma bike_object_origin s s' b :
  step s s' → rentalInv s → is_Some (bikeObjs s' !! b) →
  is_Some (bikeObjs s !! b) ∨
  ∃ bike, created bike ∧ s' = (newBike bike s).2 ∧ b = (newBike bike s).1.
Proof.
  intros Hstep Hrental.
  destruct Hstep as [bike s Hc|user s|newId user s Hu|newId bike s Hb
                     |now bikeId userEmail s|now bikeId userEmail s
                     |email0 s|bikeId loc s].
  - simpl. intros [<-|Hold]%lookup_insert_is_Some'; [right; by exists bike | by left].
  - simpl. by left.
  - rewrite registerUser_run. destruct (existsb _ _); simpl; by left.
  - rewrite registerBike_run. simpl.
    intros [<-|Hold]%lookup_insert_is_Some'; by left.
  - rewrite rentBike_run.
    destruct (List.find (bikeWithId s bikeId) (bikes s)) as [b0|] eqn:Hf; [|by left].
    apply find_bike_Some in Hf as [Hb0 _].
    destruct (available (bikeAt s b0)); [|by left].
    destruct (List.find (userWithEmail s userEmail) (users s)); [|by left].
    simpl. intros [<-|Hold]%lookup_insert_is_Some'; left; [by apply Hrental | done].
  - rewrite returnBike_run.
    destruct (findSlot (rentMatches s bikeId userEmail) (rents s)) as [[i rent]|] eqn:Hf;
      [|by left].
    apply findSlot_Some in Hf as (Hi & _).
    simpl. intros [<-|Hold]%lookup_insert_is_Some'; left; [|done].
    apply (inv_rents_alloc s Hrental). by eapply list_elem_of_lookup_2.
  - rewrite removeUser_run.
    destruct (findSlot (userWithEmail s email0) (users s)) as [[i u]|]; [|by left].
    destruct (findOpenRentsFor rentRepo (userObjs s) email0); simpl; by left.
  - rewrite moveBikeTo_run.
    destruct (List.find (bikeWithId s bikeId) (bikes s)) as [b0|] eqn:Hf; [|by left].
    apply find_bike_Some in Hf as [Hb0 _].
    simpl. intros [<-|[<-|Hold]%lookup_insert_is_Some']%lookup_insert_is_Some'; left;
      [by apply Hrental | by apply Hrental | done].
Qed.

(** Every bike object of a reachable state was constructed at some point
    of the run that leads to it. *)
Lemma bike_object_constructed s :
  reachable s →
  ∀ b, is_Some (bikeObjs s !! b) →
       ∃ s0 bike, reachable s0 ∧ created bike ∧ (newBike bike s0).1 = b ∧
                  rtc step (newBike bike s0).2 s.
Proof.
  unfold reachable. revert s.
  apply (rtc_ind_r (R := step)
           (λ s, ∀ b, is_Some (bikeObjs s !! b) →
                 ∃ s0 bike, rtc step new_App s0 ∧ created bike ∧
                            (newBike bike s0).1 = b ∧ rtc step (newBike bike s0).2 s)).
  - intros b [x Hx]. simpl in Hx. by rewrite lookup_empty in Hx.
  - intros s1 s2 Hreach Hstep IH b Hb.
    destruct (bike_object_origin s1 s2 b Hstep) as [Hold|(bike & Hc & -> & ->)];
      [by apply (reachable_fullInv s1) | done | |].
    + destruct (IH b Hold) as (s0 & bike & Hr0 & Hc & Hb0 & Hrun).
      exists s0, bike. do 3 (split; [done |]). by eapply rtc_r.
    + exists s1, bike. by repeat split.
Qed.

(** C1 as amended: in every state reachable from the empty registry, a
    registered bike referenced by an open rent is unavailable, and no bike
    has two open rents.  The converse holds for every bike object that was
    constructed with the availability flag true, whatever other bikes the
    callers constructed: from its construction on, such a bike is
    unavailable if and only if an open rent references it.  Every
    registered bike was constructed at some point of the run, so only the
    bikes constructed with the flag false are excluded; when callers
    construct all bikes available, it holds for every registered bike. *)
Theorem C1_availability_invariant s :
  reachable s →
  (∀ b, b ∈ bikes s → openRentOn s b → available (bikeAt s b) = false)
  ∧
  (∀ i j x y, rents s !! i = Some x → rents s !! j = Some y →
     rent_end x = None → rent_end y = None → rent_bike x = rent_bike y → i = j)
  ∧
  (∀ s0 bike, reachable s0 → created bike → available bike = true →
     rtc step (newBike bike s0).2 s →
     (available (bikeAt s (newBike bike s0).1) = false ↔
      openRentOn s (newBike bike s0).1))
  ∧
  (∀ b, b ∈ bikes s →
     ∃ s0 bike, reachable s0 ∧ created bike ∧ (newBike bike s0).1 = b ∧
                rtc step (newBike bike s0).2 s)
  ∧
  ((∀ bike, created bike → available bike = true) →
   ∀ b, b ∈ bikes s → (available (bikeAt s b) = false ↔ openRentOn s b)).
Proof.
  intros Hreach. pose proof (reachable_fullInv s Hreach) as [Hrental Hun].
  assert (∀ b, openRentOn s b → available (bikeAt s b) = false) as Hfwd.
  { intros b (rent & Hin & <- & Hend). by apply Hrental. }
  split; [auto |]. split; [apply Hrental |]. split; [|split].
  - intros s0 bike Hreach0 Hc Hav Hrun. split; [|auto].
    assert (reachable (newBike bike s0).2) as Hreach1.
    { eapply rtc_r; [exact Hreach0 | by apply step_newBike]. }
    by apply (rentedWhenUnavailable_run (newBike bike s0).2 s);
      [| | apply rentedWhenUnavailable_newBike].
  - intros b Hb. apply (bike_object_constructed s Hreach). by apply Hrental.
  - intros Hcreated b Hb. split; [|auto].
    apply (Hun Hcreated). by apply Hrental.
Qed.

End Reachability.

(** ** The concrete run, step by step *)

Example run5_content :
  run5 = mkApp {[ 0 := mkBike (Some "b-1") 10 false (mkLocation 0 0) ]}
               {[ 0 := mkUser (Some "u-1") "alice@example.org" "hash:secret" "Alice" ]}
               [0] [0] [mkRent 0 0 t0 None].
Proof. vm_compute. reflexivity. Qed.

Lemma run5_reachable (created : Bike → Prop) :
  created bike0 → reachable new_FakeRentRepo crypt0 created run5.
Proof.
  intros Hc. unfold reachable, run5, run4, run3, run2, run1.
  eapply rtc_r; [|apply step_rentBike].
  eapply rtc_r; [|apply step_registerBike; eval_is_Some].
  eapply rtc_r; [|by apply step_newBike].
  eapply rtc_r; [|apply step_registerUser; eval_is_Some].
  eapply rtc_r; [|apply step_newUser].
  apply rtc_refl.
Qed.

(** C1 fails as stated: registering a bike whose flag is false reaches a
    state where a registered bike is unavailable and the rent collection
    is empty. *)
Lemma C1_counterexample_parked_bike :
  reachable new_FakeRentRepo crypt0 (λ _, True) parked ∧
  0 ∈ bikes parked ∧
  rents parked = [] ∧
  ¬ (available (bikeAt parked 0) = false ↔ openRentOn parked 0).
Proof.
  split; [|split; [|split]].
  - unfold reachable, parked.
    eapply rtc_r; [|apply step_registerBike; eval_is_Some].
    eapply rtc_r; [|by apply step_newBike].
    apply rtc_refl.
  - eval_elem.
  - reflexivity.
  - intros [Hrented _].
    destruct (Hrented eq_refl) as (rent & Hin & _).
    eval_in Hin. done.
Qed.

Lemma parked_reachable : reachable new_FakeRentRepo crypt0 (λ _, True) parked.
Proof.
  unfold reachable, parked.
  eapply rtc_r; [|apply step_registerBike; eval_is_Some].
  eapply rtc_r; [|by apply step_newBike].
  apply rtc_refl.
Qed.

(** In a run that also has the parked bike, the bike built available
    (reference 1) is unavailable exactly while it has an open rent. *)
Lemma C1_witness_beside_parked_bike :
  reachable new_FakeRentRepo crypt0 (λ _, True) mixed ∧
  available (bikeAt mixed 0) = false ∧
  (available (bikeAt mixed 1) = false ↔ openRentOn mixed 1).
Proof.
  assert (rtc (step new_FakeRentRepo crypt0 (λ _, True)) mixed1 mixed) as Hrun.
  { apply rtc_once. unfold mixed. apply step_registerBike. eval_is_Some. }
  assert (reachable new_FakeRentRepo crypt0 (λ _, True) mixed) as Hreach.
  { unfold reachable. etransitivity; [|exact Hrun].
    eapply rtc_r; [apply parked_reachable | by apply step_newBike]. }
  split; [done |]. split; [by vm_compute |].
  destruct (C1_availability_invariant _ _ _ mixed Hreach) as (_ & _ & Hbike & _ & _).
  apply (Hbike parked bike0 parked_reachable I eq_refl Hrun).
Defined.

Lemma C2_witness_two_and_a_half_hours :
  (∃ rent, rent ∈ rents run5 ∧ openRentFor run5 "b-1" "alice@example.org" rent) ∧
  (returnBike t1 "b-1" "alice@example.org" run5).1 = Normal 25%float.
Proof.
  assert (∃ rent, rent ∈ rents run5 ∧ openRentFor run5 "b-1" "alice@example.org" rent)
    as Hopen.
  { exists (mkRent 0 0 t0 None). split; [eval_elem |]. by vm_compute. }
  split; [done |].
  destruct (C2_returnBike_fee run5 t1 "b-1" "alice@example.org" Hopen)
    as (i & rent & s' & Hi & _ & _ & Hrun & _).
  rewrite Hrun. simpl.
  destruct i as [|i]; vm_compute in Hi; [|done].
  injection Hi as <-. by vm_compute.
Defined.

(** With [FakeRentRepo], whose array stays empty, alice is removed even
    though her rent in the registry is still open. *)
Lemma C3_witness_fake_repo :
  (∃ u, u ∈ users run5 ∧ email (userAt run5 u) = "alice@example.org") ∧
  (removeUser new_FakeRentRepo "alice@example.org" run5).1 = Normal tt ∧
  users (removeUser new_FakeRentRepo "alice@example.org" run5).2 = [].
Proof.
  assert (∃ u, u ∈ users run5 ∧ email (userAt run5 u) = "alice@example.org") as Hex.
  { exists 0%nat. split; [eval_elem | by vm_compute]. }
  split; [done |].
  destruct (C3_removeUser_open_rents new_FakeRentRepo run5 "alice@example.org" Hex)
    as (_ & _ & Hremoved).
  destruct (Hremoved eq_refl) as (i & u & s' & Hi & _ & _ & Hrun & Husers & _).
  rewrite Hrun. simpl. split; [done |].
  rewrite Husers.
  destruct i as [|i]; vm_compute in Hi; [by vm_compute | done].
Defined.

(** A collaborator that knows the registry's open rent blocks the removal. *)
Example removeUser_blocked :
  removeUser (mkFakeRentRepo (rents run5)) "alice@example.org" run5
  = (Throw UserHasOpenRents, run5).
Proof. vm_compute. reflexivity. Qed.

(** The interleaved run that stores alice's object twice. *)
Lemma twice_reachableAsync : reachableAsync new_FakeRentRepo crypt0 (λ _, True) twice.
Proof.
  exists []. unfold twice, twice3, twice2, twice1.
  set (k1 := mkSuspended "u-1" 0 (encrypt crypt0 "secret")).
  set (k2 := mkSuspended "u-2" 0 (encrypt crypt0 "secret")).
  apply (rtc_l _ _ (run1, [])).
  { apply async_call. apply step_newUser. }
  apply (rtc_l _ _ ((registerUser_begin "u-1" 0 run1).2, [] ++ [k1])).
  { apply (async_begin _ _ _ "u-1" 0 "secret"); [eval_is_Some | by vm_compute]. }
  apply (rtc_l _ _ ((registerUser_begin "u-2" 0 (registerUser_begin "u-1" 0 run1).2).2,
                    ([] ++ [k1]) ++ [k2])).
  { apply (async_begin _ _ _ "u-2" 0 "secret"); [eval_is_Some | by vm_compute]. }
  eapply rtc_l; [apply (async_resume _ _ _ k1 _ [] [k2]) |].
  apply rtc_once. apply (async_resume _ _ _ k2 _ [] []).
Qed.

(** C3 fails as stated: two [registerUser] calls for one user object, the
    second started before the first resumed, leave that user stored twice;
    [removeUser] then returns normally and the user is still listed. *)
Lemma C3_counterexample_user_stored_twice :
  reachableAsync new_FakeRentRepo crypt0 (λ _, True) twice ∧
  users twice = [0%nat; 0%nat] ∧
  email (userAt twice 0) = "alice@example.org" ∧
  findOpenRentsFor new_FakeRentRepo (userObjs twice) "alice@example.org" = [] ∧
  (removeUser new_FakeRentRepo "alice@example.org" twice).1 = Normal tt ∧
  (listUsers (removeUser new_FakeRentRepo "alice@example.org" twice).2).1
    = Normal [0%nat] ∧
  email (userAt (removeUser new_FakeRentRepo "alice@example.org" twice).2 0)
    = "alice@example.org".
Proof.
  split; [apply twice_reachableAsync |].
  repeat split; by vm_compute.
Qed.

(** C4 fails as stated: with no user at all, [removeUser] throws "User does
    not exist.", not "User not found.". *)
Lemma C4_counterexample_empty_registry :
  (∀ u, u ∈ users new_App → email (userAt new_App u) ≠ "nobody@example.org") ∧
  (removeUser new_FakeRentRepo "nobody@example.org" new_App).1 = Throw UserDoesNotExist ∧
  (removeUser new_FakeRentRepo "nobody@example.org" new_App).1 ≠ Throw UserNotFound.
Proof.
  split; [|split].
  - intros u Hu. eval_in Hu. done.
  - reflexivity.
  - vm_compute. discriminate.
Qed.

(** The collaborator whose call throws is reached when alice is stored. *)
Example removeUser_broken_repo :
  removeUser mkBrokenRentRepo "alice@example.org" run5
  = (Throw (Error "Repository unavailable."), run5).
Proof. vm_compute. reflexivity. Qed.

(** With no user of that email, even that collaborator goes unnoticed. *)
Lemma C4_witness_absent_user :
  (∀ u, u ∈ users run5 → email (userAt run5 u) ≠ "nobody@example.org") ∧
  removeUser mkBrokenRentRepo "nobody@example.org" run5 = (Throw UserDoesNotExist, run5).
Proof.
  assert (∀ u, u ∈ users run5 → email (userAt run5 u) ≠ "nobody@example.org") as Hnone.
  { intros u Hu. eval_in Hu. destruct Hu as [<-|[]]. by vm_compute. }
  split; [done |].
  by apply (C4_removeUser_absent_user new_FakeRentRepo mkBrokenRentRepo run5
              "nobody@example.org").
Defined.

Lemma C5_witness_register_twice :
  registerUser crypt0 "u-2" 0 run2 = (Throw DuplicateUser, run2) ∧
  ∃ s', registerUser crypt0 "u-1" 0 run1 = (Normal "u-1", s') ∧
        users s' = [0%nat] ∧
        password (userAt s' 0) = "hash:secret".
Proof.
  split.
  - apply (C5_registerUser crypt0 run2 "u-2" 0).
    exists 0%nat. split; [eval_elem | done].
  - destruct (C5_registerUser crypt0 run1 "u-1" 0) as [_ Hnew].
    destruct Hnew as (s' & Hrun & Husers & _ & Hpw & _).
    { intros u Hu. eval_in Hu. done. }
    exists s'. split; [done |]. split; [by rewrite Husers |].
    rewrite Hpw. by vm_compute.
Defined.

Lemma C6_witness_second_rent :
  (∃ s1 s2, registerBike "b-1" 0 run3 = (Normal "b-1", s1) ∧
            rentBike t0 "b-1" "alice@example.org" s1 = (Normal tt, s2) ∧
            available (bikeAt s2 0) = false ∧
            rentBike t1 "b-1" "ghost@example.org" s2 = (Throw UnavailableBike, s2)) ∧
  rentBike t1 "b-1" "ghost@example.org" run5 = (Throw UnavailableBike, run5).
Proof.
  split.
  - destruct (C6_rentBike_makes_unavailable run3 "b-1" "b-1" 0 t0 "alice@example.org")
      as [Hfirst _].
    destruct Hfirst as (s1 & s2 & Hreg & Hrent & Hav & Hagain).
    { by vm_compute. }
    { intros r Hr. eval_in Hr. done. }
    { exists 0%nat. split; [eval_elem | by vm_compute]. }
    exists s1, s2. eauto.
  - destruct (C6_rentBike_makes_unavailable run5 "b-1" "b-1" 0 t0 "alice@example.org")
      as [_ Hlater].
    apply Hlater.
    + eval_elem.
    + by vm_compute.
    + by vm_compute.
    + intros r Hr _. eval_in Hr. by destruct Hr as [<-|[]].
Defined.

Lemma C7_witness_roundtrip :
  (∀ r, r ∈ bikes run3 → r ≠ 0%nat → bike_id (bikeAt run3 r) ≠ Some "b-1") ∧
  ∃ s', registerBike "b-1" 0 run3 = (Normal "b-1", s') ∧
        getBikeById "b-1" s' = (Normal 0%nat, s') ∧
        bike_id (bikeAt s' 0) = Some "b-1" ∧
        rate (bikeAt s' 0) = 10%float ∧
        available (bikeAt s' 0) = true.
Proof.
  assert (∀ r, r ∈ bikes run3 → r ≠ 0%nat → bike_id (bikeAt run3 r) ≠ Some "b-1")
    as Hfresh.
  { intros r Hr. eval_in Hr. done. }
  split; [done |].
  destruct (C7_registerBike_getBikeById_roundtrip run3 "b-1" 0 Hfresh)
    as (s' & Hreg & Hget & Hid & Hrate & Hav & _).
  exists s'. do 3 (split; [done |]).
  rewrite Hrate, Hav. by vm_compute.
Defined.

Lemma C8_witness_move :
  (∃ s', moveBikeTo "b-1" (mkLocation 1.5 2.5) run5 = (Normal tt, s') ∧
         location (bikeAt s' 0) = mkLocation 1.5 2.5 ∧
         available (bikeAt s' 0) = false ∧ rents s' = rents run5) ∧
  moveBikeTo "b-9" (mkLocation 1.5 2.5) run5 = (Throw BikeNotFound, run5).
Proof.
  destruct (C8_moveBikeTo_frame run5 "b-1" (mkLocation 1.5 2.5)) as [Hmove _].
  destruct (C8_moveBikeTo_frame run5 "b-9" (mkLocation 1.5 2.5)) as [_ Hmissing].
  split.
  - destruct Hmove as (b & s' & Hb & _ & Hrun & Hlat & Hlong & _ & _ & Hav & _ & _ & _ & _ & Hrents).
    { exists 0%nat. split; [eval_elem | by vm_compute]. }
    eval_in Hb. destruct Hb as [<-|[]].
    exists s'. split; [done |]. split; [|split; [by rewrite Hav | done]].
    destruct (location (bikeAt s' 0)). simpl in *. by subst.
  - apply Hmissing. intros r Hr. eval_in Hr. destruct Hr as [<-|[]]. by vm_compute.
Defined.

Lemma C9_witness_lookups :
  (getUserByEmail "nobody@example.org" run5 = (Normal None, run5) ∧
   findUser "nobody@example.org" run5 = (Throw UserNotFound, run5)) ∧
  (getUserByEmail "alice@example.org" run5 = (Normal (Some 0%nat), run5) ∧
   findUser "alice@example.org" run5 = (Normal (Some 0%nat), run5)).
Proof.
  destruct (C9_getUserByEmail_vs_findUser run5 "nobody@example.org") as [Habsent _].
  destruct (C9_getUserByEmail_vs_findUser run5 "alice@example.org") as [_ Hpresent].
  split.
  - apply Habsent. intros u Hu. eval_in Hu. destruct Hu as [<-|[]]. by vm_compute.
  - destruct Hpresent as (u & Hu & _ & Hget & Hfind).
    { exists 0%nat. split; [eval_elem | by vm_compute]. }
    eval_in Hu. by destruct Hu as [<-|[]].
Defined.

Lemma C10_witness_unknown_user :
  getBikeById "b-1" run4 = (Normal 0%nat, run4) ∧
  available (bikeAt run4 0) = true ∧
  rentBike t0 "b-1" "ghost@example.org" run4 = (Throw UserNotFound, run4).
Proof.
  assert (getBikeById "b-1" run4 = (Normal 0%nat, run4)) as Hget by by vm_compute.
  assert (available (bikeAt run4 0) = true) as Hav by by vm_compute.
  do 2 (split; [done |]).
  destruct (C10_rentBike_atomic_on_failure run4 t0 "b-1" "ghost@example.org")
    as [Hatomic Huser].
  destruct (Huser 0%nat Hget Hav) as (s' & Hrun & Hsame & _).
  { intros u Hu. eval_in Hu. destruct Hu as [<-|[]]. by vm_compute. }
  destruct (Hatomic _ _ Hrun) as [-> _]. done.
Defined.

(** * Further properties of the operations *)

(** ** [authenticate] and the user lookups after [registerUser] *)

Section Authentication.

Variable crypt : Crypt.
Implicit Types (s : App) (u user : ref) (e p q newId : string).

Lemma authenticate_run s e p :
  authenticate crypt e p s =
    match List.find (userWithEmail s e) (users s) with
    | Some u => (Normal (compare crypt p (password (userAt s u))), s)
    | None => (Throw UserNotFound, s)
    end.
Proof.
  unfold authenticate, bind. rewrite findUser_run.
  by destruct (List.find (userWithEmail s e) (users s)).
Qed.


(** X1: [authenticate] throws "User not found." when no stored user has the
    email; otherwise it answers what the hasher's [compare] says of the
    given password and the stored password of the user that
    [getUserByEmail] returns.  In both cases the state is unchanged. *)
Theorem X1_authenticate_contract s e p :
  ((∀ u, u ∈ users s → email (userAt s u) ≠ e) →
     authenticate crypt e p s = (Throw UserNotFound, s))
  ∧
  ((∃ u, u ∈ users s ∧ email (userAt s u) = e) →
     ∃ u, u ∈ users s ∧ email (userAt s u) = e ∧
          getUserByEmail e s = (Normal (Some u), s) ∧
          authenticate crypt e p s =
            (Normal (compare crypt p (password (userAt s u))), s)).
Proof.
  rewrite authenticate_run, getUserByEmail_run. split.
  - intros Hall. apply find_userWithEmail_None in Hall. by rewrite Hall.
  - intros (u & Hin & He).
    destruct (List.find (userWithEmail s e) (users s)) as [v|] eqn:Hf.
    + exists v. apply find_some in Hf as [Hv Hp].
      apply list_elem_of_In in Hv. apply String.eqb_eq in Hp. done.
    + destruct (proj1 (find_userWithEmail_None s e) Hf u Hin He).
Qed.



End Authentication.

(** ** More on [rentBike] and [returnBike] *)

Section RentalLifecycle.

Implicit Types (s : App) (b r u : ref) (bikeId userEmail : string) (now : Date).

(** Flipping availability and closing rents does not change what the
    predicate of [returnBike] reads of a bike or a user. *)
Lemma openRentFor_frame s s' bikeId userEmail rent :
  (∀ r, bike_id (bikeAt s' r) = bike_id (bikeAt s r)) →
  (∀ r, email (userAt s' r) = email (userAt s r)) →
  openRentFor s' bikeId userEmail rent ↔ openRentFor s bikeId userEmail rent.
Proof. intros Hb Hu. unfold openRentFor. by rewrite Hb, Hu. Qed.

Lemma bike_id_set_available s b v r :
  bike_id (bikeAt (updBike b (set_available v) s) r) = bike_id (bikeAt s r).
Proof. rewrite bikeAt_updBike. by destruct (decide (b = r)) as [->|]. Qed.

Lemma findSlot_push {A} (p : A → bool) (l : list A) (x : A) :
  (∀ y, y ∈ l → p y = false) → p x = true →
  findSlot p (l ++ [x]) = Some (length l, x).
Proof.
  intros Hl Hx. apply findSlot_Some. split; [|split; [done |]].
  - apply lookup_snoc_Some. by right.
  - intros j y Hlt Hj. apply lookup_snoc_Some in Hj as [[_ Hj]|[-> _]]; [|lia].
    apply Hl. by eapply list_elem_of_lookup_2.
Qed.

(** X4: [returnBike] throws RentNotFoundError exactly when no rent of the
    collection matches the bike identifier and the email with no end (wrong
    bike, wrong user, or already closed); it throws nothing else, and a
    throwing call leaves the state unchanged. *)
Theorem X4_returnBike_not_found s now bikeId userEmail :
  ((∀ rent, rent ∈ rents s → ¬ openRentFor s bikeId userEmail rent) →
     returnBike now bikeId userEmail s = (Throw RentNotFound, s))
  ∧
  (∀ ex s', returnBike now bikeId userEmail s = (Throw ex, s') →
     ex = RentNotFound ∧ s' = s ∧
     ∀ rent, rent ∈ rents s → ¬ openRentFor s bikeId userEmail rent).
Proof.
  rewrite returnBike_run. split.
  - intros Hnone.
    assert (findSlot (rentMatches s bikeId userEmail) (rents s) = None) as ->; [|done].
    apply findSlot_None. intros rent Hin. apply rentMatches_false. auto.
  - intros ex s' Hrun.
    destruct (findSlot (rentMatches s bikeId userEmail) (rents s)) as [[i rent]|] eqn:Hf;
      [done |].
    simplify_eq. do 2 (split; [done |]).
    intros rent Hin. apply rentMatches_false.
    by apply (proj1 (findSlot_None _ _) Hf).
Qed.

(** X5: a rent is returned once.  When exactly one rent matches, the first
    [returnBike] succeeds and every later [returnBike] with the same bike
    identifier and email throws RentNotFoundError. *)
Theorem X5_returnBike_twice s now bikeId userEmail i rent :
  rents s !! i = Some rent → openRentFor s bikeId userEmail rent →
  (∀ j y, rents s !! j = Some y → openRentFor s bikeId userEmail y → j = i) →
  ∃ fee s1, returnBike now bikeId userEmail s = (Normal fee, s1) ∧
            ∀ now', returnBike now' bikeId userEmail s1 = (Throw RentNotFound, s1).
Proof.
  intros Hi Hopen Huniq.
  assert (findSlot (rentMatches s bikeId userEmail) (rents s) = Some (i, rent)) as Hf.
  { apply findSlot_Some. split; [done |]. split; [by apply rentMatches_true |].
    intros j y Hlt Hj. apply rentMatches_false. intros Hy.
    specialize (Huniq j y Hj Hy). lia. }
  rewrite returnBike_run, Hf. do 2 eexists. split; [done |].
  intros now'. rewrite returnBike_run.
  set (s1 := updBike _ _ _).
  assert (findSlot (rentMatches s1 bikeId userEmail) (rents s1) = None) as ->; [|done].
  apply findSlot_None. intros y [j Hj]%list_elem_of_lookup.
  apply rentMatches_false. intros Hy.
  apply (openRentFor_frame s s1) in Hy.
  2:{ intros r. subst s1. by rewrite bike_id_set_available. }
  2:{ done. }
  subst s1. simpl in Hj.
  destruct (decide (j = i)) as [->|Hne].
  - rewrite list_lookup_alter_eq, Hi in Hj. simplify_eq/=.
    by destruct Hy as (_ & _ & ?).
  - rewrite list_lookup_alter_ne in Hj by done. by specialize (Huniq j y Hj Hy).
Qed.

(** X6: a successful [rentBike].  When the identifier resolves to an
    available bike and the email to a user, the call returns normally, makes
    that bike unavailable without touching its other fields, and appends
    one rent for that bike and user that starts now and has no end; the
    other bike objects, the user objects, the user and bike collections and
    the earlier rents are unchanged. *)
Theorem X6_rentBike_success s now bikeId userEmail b u :
  getBikeById bikeId s = (Normal b, s) →
  available (bikeAt s b) = true →
  getUserByEmail userEmail s = (Normal (Some u), s) →
  ∃ s', rentBike now bikeId userEmail s = (Normal tt, s') ∧
        rents s' = rents s ++ [mkRent b u now None] ∧
        bikeAt s' b = mkBike (bike_id (bikeAt s b)) (rate (bikeAt s b)) false
                             (location (bikeAt s b)) ∧
        (∀ r, r ≠ b → bikeObjs s' !! r = bikeObjs s !! r) ∧
        userObjs s' = userObjs s ∧ users s' = users s ∧ bikes s' = bikes s.
Proof.
  rewrite getBikeById_run, findBike_run, getUserByEmail_run, rentBike_run.
  intros Hb Hav Hu.
  destruct (List.find (bikeWithId s bikeId) (bikes s)) as [b'|]; [|done].
  destruct (List.find (userWithEmail s userEmail) (users s)) as [u'|]; [|done].
  simplify_eq. rewrite Hav. eexists. split; [done |]. split; [done |].
  split.
  - change (bikeAt (pushRent ?x ?t) b) with (bikeAt t b).
    by rewrite bikeAt_updBike_eq.
  - split; [|done]. intros r Hne. simpl. by rewrite lookup_insert_ne.
Qed.

(** X7: renting and returning.  When the identifier resolves to an
    available bike, the email to a user, and no earlier rent matches them
    with no end, [rentBike] at [t] followed by [returnBike] at [t'] succeeds
    with the fee |t' - t| in seconds over 3600 times the bike's rate, leaves
    every bike object as it was before the rent, and leaves the rent
    collection extended by one closed rent from [t] to [t']. *)
Theorem X7_rent_then_return s t t' bikeId userEmail b u :
  getBikeById bikeId s = (Normal b, s) →
  available (bikeAt s b) = true →
  getUserByEmail userEmail s = (Normal (Some u), s) →
  (∀ rent, rent ∈ rents s → ¬ openRentFor s bikeId userEmail rent) →
  ∃ s1 s2,
    rentBike t bikeId userEmail s = (Normal tt, s1) ∧
    returnBike t' bikeId userEmail s1 =
      (Normal (PrimFloat.abs ((getTime t' - getTime t) / 1000 / 3600)
               * rate (bikeAt s b))%float, s2) ∧
    (∀ r, bikeAt s2 r = bikeAt s r) ∧
    rents s2 = rents s ++ [mkRent b u t (Some t')] ∧
    users s2 = users s ∧ bikes s2 = bikes s ∧ userObjs s2 = userObjs s.
Proof.
  rewrite getBikeById_run, findBike_run, getUserByEmail_run, rentBike_run.
  intros Hb Hav Hu Hnone.
  destruct (List.find (bikeWithId s bikeId) (bikes s)) as [b'|] eqn:Hfb; [|done].
  destruct (List.find (userWithEmail s userEmail) (users s)) as [u'|] eqn:Hfu; [|done].
  simplify_eq. rewrite Hav.
  apply find_bike_Some in Hfb as [_ Hid].
  apply find_some in Hfu as [_ Hemail]. apply String.eqb_eq in Hemail.
  set (s1 := pushRent (new_Rent b u t) (updBike b (set_available false) s)).
  assert (∀ rent, openRentFor s1 bikeId userEmail rent ↔
                  openRentFor s bikeId userEmail rent) as Hsame.
  { intros rent. apply openRentFor_frame; [|done].
    intros r. subst s1. change (bikeAt (pushRent ?x ?y) r) with (bikeAt y r).
    by rewrite bike_id_set_available. }
  assert (findSlot (rentMatches s1 bikeId userEmail) (rents s1)
          = Some (length (rents s), new_Rent b u t)) as Hf.
  { change (rents s1) with (rents s ++ [new_Rent b u t]). apply findSlot_push.
    - intros y Hy. apply rentMatches_false. rewrite Hsame. by apply Hnone.
    - apply rentMatches_true, Hsame. done. }
  exists s1. eexists. split; [done |].
  rewrite returnBike_run, Hf, diffHours_hours. simpl rent_bike. simpl rent_start.
  assert (bikeAt s1 b = set_available false (bikeAt s b)) as Hb1.
  { subst s1. change (bikeAt (pushRent ?x ?y) b) with (bikeAt y b).
    by rewrite bikeAt_updBike_eq. }
  split; [by rewrite Hb1 |].
  split.
  - intros r. rewrite bikeAt_updBike.
    change (bikeAt (updRent ?k ?f ?y) ?z) with (bikeAt y z).
    destruct (decide (b = r)) as [<-|Hne].
    + rewrite Hb1. destruct (bikeAt s b); simpl in *. by subst.
    + subst s1. change (bikeAt (pushRent ?x ?y) r) with (bikeAt y r).
      by rewrite bikeAt_updBike_ne.
  - split; [|done]. simpl.
    rewrite alter_app_r_alt by done. by rewrite Nat.sub_diag.
Qed.

(** X8: [returnBike] does not read the user collection.  Whatever
    [removeUser] with the fake rent repository did for that email before
    (removed the user or thrown), [returnBike] completes as it would have
    without that call: same fee or same exception, same rents. *)
Theorem X8_returnBike_after_removeUser s now bikeId userEmail anyEmail :
  let s1 := (removeUser new_FakeRentRepo anyEmail s).2 in
  (returnBike now bikeId userEmail s1).1 = (returnBike now bikeId userEmail s).1 ∧
  rents (returnBike now bikeId userEmail s1).2 =
    rents (returnBike now bikeId userEmail s).2 ∧
  bikeObjs (returnBike now bikeId userEmail s1).2 =
    bikeObjs (returnBike now bikeId userEmail s).2.
Proof.
  intros s1. subst s1. rewrite removeUser_run.
  destruct (findSlot (userWithEmail s anyEmail) (users s)) as [[i u]|]; [|done].
  destruct (findOpenRentsFor new_FakeRentRepo (userObjs s) anyEmail); [|done].
  simpl. rewrite !returnBike_run.
  change (rents (setUsers ?l s)) with (rents s).
  change (rentMatches (setUsers ?l s)) with (rentMatches s).
  by destruct (findSlot (rentMatches s bikeId userEmail) (rents s)) as [[j rent]|].
Qed.

End RentalLifecycle.

(** ** The fake rent repository and [removeUser] *)

Section FakeRepository.

Implicit Types (s : App) (e : string) (repo : FakeRentRepo).

(** X9: [FakeRentRepo.findOpenRentsFor] returns exactly the rents of its own
    array whose user has the email and which have no end, in the order of
    the array; it never looks at the registry's rents. *)
Theorem X9_FakeRentRepo_filter repo (objs : gmap ref User) e :
  (∀ rent, rent ∈ findOpenRentsFor repo objs e ↔
           rent ∈ fake_rents repo ∧
           email (objs !!! rent_user rent) = e ∧ rent_end rent = None)
  ∧ findOpenRentsFor repo objs e `sublist_of` fake_rents repo
  ∧ (fake_rents repo = [] → findOpenRentsFor repo objs e = []).
Proof.
  unfold findOpenRentsFor, FakeRentRepo_RentRepo. split; [|split].
  - intros rent. rewrite !list_elem_of_In, filter_In.
    rewrite andb_true_iff, String.eqb_eq, negb_true_iff.
    rewrite bool_decide_eq_false, <- eq_None_not_Some. tauto.
  - induction (fake_rents repo) as [|x l IH]; simpl; [done |].
    destruct (_ && _); [by apply sublist_skip | by apply sublist_cons].
  - by intros ->.
Qed.

Lemma no_email_after_delete s i u :
  uniqueEmails s → users s !! i = Some u →
  ∀ v, v ∈ delete i (users s) → email (userAt s v) ≠ email (userAt s u).
Proof.
  intros Huniq Hi v [j Hj]%list_elem_of_lookup Heq.
  destruct (decide (j < i)%nat) as [Hlt|Hge].
  - rewrite list_lookup_delete_lt in Hj by done.
    assert (j = i) by by apply (Huniq j i v u). lia.
  - rewrite list_lookup_delete_ge in Hj by lia.
    assert (S j = i) by by apply (Huniq (S j) i v u). lia.
Qed.

(** X10: with the fake rent repository as [new FakeRentRepo()] builds it,
    [removeUser] never throws "User has open rents, cannot be removed.": a
    user with that email is removed even while a rent of the registry that
    references them has no end, and that rent and its bike stay as they
    are. *)
Theorem X10_removeUser_fake_repo_never_blocks s e :
  (removeUser new_FakeRentRepo e s).1 ≠ Throw UserHasOpenRents ∧
  ((∃ u, u ∈ users s ∧ email (userAt s u) = e) →
     ∃ s', removeUser new_FakeRentRepo e s = (Normal tt, s') ∧
           length (users s') = pred (length (users s)) ∧
           rents s' = rents s ∧ bikeObjs s' = bikeObjs s ∧
           userObjs s' = userObjs s).
Proof.
  rewrite removeUser_run.
  change (findOpenRentsFor new_FakeRentRepo (userObjs s) e) with (@nil Rent).
  destruct (findSlot (userWithEmail s e) (users s)) as [[i u]|] eqn:Hf.
  - split; [done |]. intros _. eexists. split; [done |]. simpl.
    split; [|done].
    apply findSlot_Some in Hf as (Hi & _).
    apply lookup_lt_Some in Hi. rewrite length_delete; [lia |].
    by apply lookup_lt_is_Some.
  - split; [done |]. intros (u & Hu & He).
    rewrite findSlot_user_None in Hf. destruct (Hf u Hu He).
Qed.

End FakeRepository.

Section RemoveThenRegister.

Context {R : Type} `{RentRepo R}.
Variable rentRepo : R.
Variable crypt : Crypt.

(** X11: an email is free again after its user was removed.  In a state
    with pairwise different emails, once [removeUser] has returned normally
    for an email, [findUser] on it throws "User not found.",
    [getUserByEmail] returns the absent value, and [registerUser] of any
    user object with that email succeeds. *)
Theorem X11_removeUser_frees_email (s : App) (e newId : string) (user : ref) s' :
  uniqueEmails s →
  removeUser rentRepo e s = (Normal tt, s') →
  email (userAt s user) = e →
  findUser e s' = (Throw UserNotFound, s') ∧
  getUserByEmail e s' = (Normal None, s') ∧
  ∃ s'', registerUser crypt newId user s' = (Normal newId, s'') ∧
         users s'' = users s' ++ [user].
Proof.
  intros Huniq Hrun Huser. rewrite removeUser_run in Hrun.
  destruct (findSlot (userWithEmail s e) (users s)) as [[i u]|] eqn:Hf; [|done].
  destruct (findOpenRentsFor rentRepo (userObjs s) e); [|done].
  simplify_eq.
  apply findSlot_Some in Hf as (Hi & Hp & _). apply String.eqb_eq in Hp.
  set (s' := setUsers (delete i (users s)) s).
  assert (∀ v, v ∈ users s' → email (userAt s' v) ≠ email (userAt s user)) as Hfree.
  { intros v Hv. rewrite <- Hp. by apply (no_email_after_delete s i u). }
  assert (List.find (userWithEmail s' (email (userAt s user))) (users s') = None) as Hnone.
  { by apply find_userWithEmail_None. }
  rewrite findUser_run, getUserByEmail_run, Hnone. do 2 (split; [done |]).
  rewrite registerUser_run.
  destruct (existsb (userWithEmail s' (email (userAt s' user))) (users s')) eqn:Hex.
  { apply existsb_userWithEmail in Hex as (v & Hv & He). destruct (Hfree v Hv He). }
  eexists. split; done.
Qed.

End RemoveThenRegister.

(** ** More on bikes *)

Section BikeIdentity.

Implicit Types (s : App) (b r : ref) (bikeId newId : string).

(** X12: [getBikeById] throws BikeNotFoundError exactly when no registered
    bike carries the identifier; otherwise it returns the first registered
    bike that carries it.  The state is unchanged either way. *)
Theorem X12_getBikeById_contract s bikeId :
  ((∀ r, r ∈ bikes s → bike_id (bikeAt s r) ≠ Some bikeId) →
     getBikeById bikeId s = (Throw BikeNotFound, s))
  ∧
  (∀ i b, bikes s !! i = Some b → bike_id (bikeAt s b) = Some bikeId →
          (∀ j r, (j < i)%nat → bikes s !! j = Some r →
                  bike_id (bikeAt s r) ≠ Some bikeId) →
          getBikeById bikeId s = (Normal b, s))
  ∧
  (∀ c s', getBikeById bikeId s = (c, s') → s' = s).
Proof.
  rewrite getBikeById_run, findBike_run, find_findSlot. split; [|split].
  - intros Hnone.
    assert (findSlot (bikeWithId s bikeId) (bikes s) = None) as ->; [|done].
    apply findSlot_None. intros r Hr. apply id_is_false. auto.
  - intros i b Hi Hid Hfirst.
    assert (findSlot (bikeWithId s bikeId) (bikes s) = Some (i, b)) as ->; [|done].
    apply findSlot_Some. split; [done |]. split; [by apply id_is_true |].
    intros j r Hlt Hj. apply id_is_false. eauto.
  - intros c s'.
    destruct (findSlot (bikeWithId s bikeId) (bikes s)) as [[i b]|]; simpl; congruence.
Qed.

(** X13: registering the same bike object again replaces its identifier.
    The bike is then in the collection twice, the new identifier resolves
    to it, and the identifier it had before resolves to nothing. *)
Theorem X13_registerBike_again s oldId newId b :
  b ∈ bikes s → bike_id (bikeAt s b) = Some oldId → oldId ≠ newId →
  (∀ r, r ∈ bikes s → r ≠ b → bike_id (bikeAt s r) ≠ Some oldId) →
  (∀ r, r ∈ bikes s → r ≠ b → bike_id (bikeAt s r) ≠ Some newId) →
  getBikeById oldId s = (Normal b, s) ∧
  ∃ s', registerBike newId b s = (Normal newId, s') ∧
        bikes s' = bikes s ++ [b] ∧
        getBikeById newId s' = (Normal b, s') ∧
        getBikeById oldId s' = (Throw BikeNotFound, s').
Proof.
  intros Hb Hid Hne Hold Hnew. split.
  - rewrite getBikeById_run, findBike_run.
    rewrite (find_bike_unique s oldId b); [done.. |].
    intros r Hr Hrid. destruct (decide (r = b)); [done |].
    destruct (Hold r Hr); done.
  - eexists. split; [apply registerBike_run |]. split; [done |].
    rewrite !getBikeById_run, !findBike_run.
    rewrite (find_registered s newId b Hnew). split; [done |].
    set (s' := pushBike b _).
    assert (List.find (bikeWithId s' oldId) (bikes s') = None) as ->; [|done].
    apply find_bike_None. intros r Hr.
    subst s'. change (bikeAt (pushBike b ?t) r) with (bikeAt t r).
    rewrite bikeAt_updBike. destruct (decide (b = r)) as [<-|Hbr].
    + simpl. congruence.
    + simpl in Hr. apply elem_of_app in Hr as [Hr|Hr%list_elem_of_singleton]; [|done].
      by apply Hold.
Qed.

Lemma find_bike_after_move s b bikeId f :
  (∀ x, bike_id (f x) = bike_id x) →
  List.find (bikeWithId (updBike b f s) bikeId) (bikes (updBike b f s))
  = List.find (bikeWithId s bikeId) (bikes s).
Proof.
  intros Hf. apply find_pointwise. intros r. unfold bikeWithId.
  rewrite bikeAt_updBike. destruct (decide (b = r)) as [->|]; [by rewrite Hf | done].
Qed.

(** X14: the last move wins.  Two [moveBikeTo] calls on the same identifier
    leave exactly the state that the second call alone would have left, and
    complete the same way. *)
Theorem X14_moveBikeTo_twice s bikeId loc1 loc2 :
  moveBikeTo bikeId loc2 (moveBikeTo bikeId loc1 s).2 = moveBikeTo bikeId loc2 s.
Proof.
  rewrite (moveBikeTo_run s bikeId loc1).
  destruct (List.find (bikeWithId s bikeId) (bikes s)) as [b|] eqn:Hf; simpl.
  2:{ by rewrite moveBikeTo_run, Hf. }
  rewrite !moveBikeTo_run, !find_bike_after_move by done. rewrite Hf.
  f_equal. unfold updBike at 1 3 5. simpl. rewrite !bikeAt_updBike_eq.
  f_equal. unfold updBike. simpl.
  rewrite !insert_insert_eq. f_equal.
  unfold bikeAt at 1. simpl. by rewrite lookup_total_insert_eq.
Qed.

End BikeIdentity.

(** ** What runs of the registry keep *)

Section Histories.

Context {R : Type} `{RentRepo R}.
Variable rentRepo : R.
Variable crypt : Crypt.
Variable created : Bike → Prop.

Local Abbreviation step := (step rentRepo crypt created).
Local Abbreviation reachable := (reachable rentRepo crypt created).

Lemma rentKept_refl r : rentKept r r.
Proof. by repeat split. Qed.

Lemma historyKept_same s s' :
  bikes s' = bikes s → rents s' = rents s → historyKept s s'.
Proof.
  intros Hb Hr. split; [by rewrite Hb |].
  intros i r Hi. exists r. rewrite Hr. split; [done | apply rentKept_refl].
Qed.

Lemma historyKept_trans s1 s2 s3 :
  historyKept s1 s2 → historyKept s2 s3 → historyKept s1 s3.
Proof.
  intros [Hb12 Hr12] [Hb23 Hr23]. split; [by etransitivity |].
  intros i r Hi.
  destruct (Hr12 i r Hi) as (r2 & Hi2 & Hb & Hu & Hs & He).
  destruct (Hr23 i r2 Hi2) as (r3 & Hi3 & Hb' & Hu' & Hs' & He').
  exists r3. split; [done |]. repeat split; try congruence. auto.
Qed.

Lemma historyKept_step s s' : step s s' → historyKept s s'.
Proof.
  intros Hstep.
  destruct Hstep as [bike s Hc|user s|newId user s Hu|newId bike s Hb
                     |now bikeId userEmail s|now bikeId userEmail s
                     |email0 s|bikeId loc s].
  - by apply historyKept_same.
  - by apply historyKept_same.
  - rewrite registerUser_run.
    destruct (existsb _ _); by apply historyKept_same.
  - rewrite registerBike_run. split; [by apply prefix_app_r |].
    intros i r Hi. exists r. split; [done | apply rentKept_refl].
  - rewrite rentBike_run.
    destruct (List.find (bikeWithId s bikeId) (bikes s)) as [b|];
      [|by apply historyKept_same].
    destruct (available (bikeAt s b)); [|by apply historyKept_same].
    destruct (List.find (userWithEmail s userEmail) (users s));
      [|by apply historyKept_same].
    split; [done |]. intros i r Hi. exists r. simpl.
    split; [by apply lookup_app_l_Some | apply rentKept_refl].
  - rewrite returnBike_run.
    destruct (findSlot (rentMatches s bikeId userEmail) (rents s)) as [[i rent]|] eqn:Hf;
      [|by apply historyKept_same].
    apply findSlot_Some in Hf as (Hi & Hm & _).
    apply rentMatches_true in Hm as (_ & _ & Hend).
    split; [done |]. intros j r Hj. simpl.
    destruct (decide (j = i)) as [->|Hne].
    + rewrite list_lookup_alter_eq, Hj. simplify_eq. eexists. split; [done |].
      repeat split; simpl; try done. intros d Hd. congruence.
    + rewrite list_lookup_alter_ne by done. exists r.
      split; [done | apply rentKept_refl].
  - rewrite removeUser_run.
    destruct (findSlot (userWithEmail s email0) (users s)) as [[i u]|];
      [|by apply historyKept_same].
    destruct (findOpenRentsFor rentRepo (userObjs s) email0);
      by apply historyKept_same.
  - rewrite moveBikeTo_run.
    destruct (List.find (bikeWithId s bikeId) (bikes s)) as [b|];
      by apply historyKept_same.
Qed.

(** X15: nothing is deleted from the history.  Along any sequence of
    registry actions, the bike collection only grows at its end, and every
    rent stays at its position with the same bike, user and start; once a
    rent has an end, that end never changes. *)
Theorem X15_history_is_kept s s' :
  rtc step s s' →
  bikes s `prefix_of` bikes s' ∧
  ∀ i r, rents s !! i = Some r →
    ∃ r', rents s' !! i = Some r' ∧
          rent_bike r' = rent_bike r ∧ rent_user r' = rent_user r ∧
          rent_start r' = rent_start r ∧
          (∀ d, rent_end r = Some d → rent_end r' = Some d).
Proof.
  intros Hrun. change (historyKept s s').
  induction Hrun as [s|s1 s2 s3 Hstep _ IH].
  - by apply historyKept_same.
  - apply (historyKept_trans s1 s2 s3); [by apply historyKept_step | done].
Qed.

Lemma reachable_userInv s : reachable s → userInv s.
Proof.
  unfold reachable. intros Hreach.
  apply (rtc_ind_r (R := step) userInv new_App); [| | done].
  - split; [intros u Hu; by apply elem_of_nil in Hu | intros i j u v Hi; done].
  - intros s1 s2 _ Hstep IH. by apply (userInv_step rentRepo crypt created s1).
Qed.

(** X16: when every call has completed before the next one starts (no
    [registerUser] call is started while another is suspended at its
    [await]), every state reachable from the empty registry has no two
    stored users with the same email and no user object stored twice. *)
Theorem X16_reachable_users_distinct s :
  reachable s →
  NoDup (users s) ∧
  ∀ u v, u ∈ users s → v ∈ users s →
         email (userAt s u) = email (userAt s v) → u = v.
Proof.
  intros [_ Huniq]%reachable_userInv. split.
  - apply NoDup_alt. intros i j u Hi Hj. by apply (Huniq i j u u).
  - intros u v [i Hi]%list_elem_of_lookup [j Hj]%list_elem_of_lookup Heq.
    assert (i = j) by by apply (Huniq i j u v). congruence.
Qed.

End Histories.

Section RegisteredObjects.

Context {R : Type} `{RentRepo R}.
Variable rentRepo : R.
Variable crypt : Crypt.
Variable created : Bike → Prop.

Local Abbreviation step := (step rentRepo crypt created).
Local Abbreviation reachable := (reachable rentRepo crypt created).

(** Identifiers already assigned survive a step; new members of a
    collection come with one. *)
Lemma registeredInv_frame s s' :
  registeredInv s →
  (∀ b, b ∈ bikes s' →
        is_Some (bike_id (bikeAt s' b)) ∨
        (b ∈ bikes s ∧ bike_id (bikeAt s' b) = bike_id (bikeAt s b))) →
  (∀ u, u ∈ users s' →
        is_Some (user_id (userAt s' u)) ∨
        (u ∈ users s ∧ user_id (userAt s' u) = user_id (userAt s u))) →
  (∀ rent, rent ∈ rents s' →
        rent_bike rent ∈ bikes s' ∨
        (∃ rent0, rent0 ∈ rents s ∧ rent_bike rent0 = rent_bike rent)) →
  (∀ b, b ∈ bikes s → b ∈ bikes s') →
  registeredInv s'.
Proof.
  intros [Hb Hu Hr] Hb' Hu' Hr' Hgrow. split.
  - intros b Hin. destruct (Hb' b Hin) as [?|[Hold ->]]; auto.
  - intros u Hin. destruct (Hu' u Hin) as [?|[Hold ->]]; auto.
  - intros rent Hin. destruct (Hr' rent Hin) as [?|(rent0 & Hold & <-)]; auto.
Qed.

Lemma registeredInv_step s s' :
  step s s' → rentalInv s → userInv s → registeredInv s → registeredInv s'.
Proof.
  intros Hstep Hrental Husers Hinv.
  destruct Hstep as [bike s Hc|user s|newId user s Hu|newId bike s Hb
                     |now bikeId userEmail s|now bikeId userEmail s
                     |email0 s|bikeId loc s].
  - apply (registeredInv_frame s); [done | | | |]; simpl; eauto.
    intros b Hin. right. split; [done |].
    destruct (inv_bikes_alloc s Hrental b Hin) as [x Hx].
    unfold bikeAt; simpl. rewrite lookup_total_insert_ne; [done |].
    intros <-. pose proof (is_fresh (dom (bikeObjs s))) as Hfresh.
    apply not_elem_of_dom in Hfresh. congruence.
  - apply (registeredInv_frame s); [done | | | |]; simpl; eauto.
    intros u Hin. right. split; [done |].
    destruct (inv_users_alloc s Husers u Hin) as [x Hx].
    unfold userAt; simpl. rewrite lookup_total_insert_ne; [done |].
    intros <-. pose proof (is_fresh (dom (userObjs s))) as Hfresh.
    apply not_elem_of_dom in Hfresh. congruence.
  - rewrite registerUser_run. destruct (existsb _ _); [done |].
    apply (registeredInv_frame s); [done | | | |]; simpl; eauto.
    intros u Hin.
    change (userAt (pushUser user ?t) u) with (userAt t u).
    rewrite !userAt_updUser.
    destruct (decide (user = u)) as [<-|Hne].
    + left. repeat case_decide; try done; simpl; by eexists.
    + right. apply elem_of_app in Hin as [Hin|Hin%list_elem_of_singleton]; done.
  - rewrite registerBike_run.
    apply (registeredInv_frame s); [done | | | |]; simpl; eauto.
    + intros b Hin.
      change (bikeAt (pushBike bike ?t) b) with (bikeAt t b).
      rewrite bikeAt_updBike. destruct (decide (bike = b)) as [<-|Hne].
      * left. simpl. by eexists.
      * right. apply elem_of_app in Hin as [Hin|Hin%list_elem_of_singleton]; done.
    + intros b Hin. apply elem_of_app. by left.
  - rewrite rentBike_run.
    destruct (List.find (bikeWithId s bikeId) (bikes s)) as [b|] eqn:Hf; [|done].
    apply find_bike_Some in Hf as [Hb _].
    destruct (available (bikeAt s b)); [|done].
    destruct (List.find (userWithEmail s userEmail) (users s)) as [u|]; [|done].
    apply (registeredInv_frame s); [done | | | |]; simpl; eauto.
    + intros r Hin. right. split; [done |].
      change (bikeAt (pushRent ?x ?t) r) with (bikeAt t r).
      apply bike_id_set_available.
    + intros rent [Hin| ->%list_elem_of_singleton]%elem_of_app; [eauto |].
      by left.
  - rewrite returnBike_run.
    destruct (findSlot (rentMatches s bikeId userEmail) (rents s)) as [[i rent]|] eqn:Hf;
      [|done].
    apply findSlot_Some in Hf as (Hi & _).
    apply (registeredInv_frame s); [done | | | |]; simpl; eauto.
    + intros r Hin. right. split; [done |].
      rewrite bike_id_set_available. done.
    + intros y [j Hj]%list_elem_of_lookup. right.
      destruct (decide (j = i)) as [->|Hne].
      * rewrite list_lookup_alter_eq, Hi in Hj. simplify_eq/=.
        exists rent. split; [by eapply list_elem_of_lookup_2 | done].
      * rewrite list_lookup_alter_ne in Hj by done.
        exists y. split; [by eapply list_elem_of_lookup_2 | done].
  - rewrite removeUser_run.
    destruct (findSlot (userWithEmail s email0) (users s)) as [[i u]|]; [|done].
    destruct (findOpenRentsFor rentRepo (userObjs s) email0); [|done].
    apply (registeredInv_frame s); [done | | | |]; simpl; eauto.
    intros v Hin. right. split; [|done].
    by eapply list_elem_of_delete_inv.
  - rewrite moveBikeTo_run.
    destruct (List.find (bikeWithId s bikeId) (bikes s)) as [b|]; [|done].
    apply (registeredInv_frame s); [done | | | |]; simpl; eauto.
    intros r Hin. right. split; [done |].
    rewrite !bikeAt_updBike. by repeat case_decide; simplify_eq.
Qed.

(** X17: in every state reachable from the empty registry, every bike of
    the bike collection and every user of the user collection has an
    identifier, and every rent references a bike of the bike collection. *)
Theorem X17_reachable_registered_objects s :
  reachable s →
  (∀ b, b ∈ bikes s → ∃ i, bike_id (bikeAt s b) = Some i) ∧
  (∀ u, u ∈ users s → ∃ i, user_id (userAt s u) = Some i) ∧
  (∀ rent, rent ∈ rents s → rent_bike rent ∈ bikes s).
Proof.
  intros Hreach.
  assert (registeredInv s) as [Hb Hu Hr]; [|done].
  revert s Hreach.
  apply (rtc_ind_r (R := step) registeredInv new_App).
  - split; intros x Hx; by apply elem_of_nil in Hx.
  - intros s1 s2 Hreach Hstep IH.
    apply (registeredInv_step s1); [done | | | done].
    + by apply (reachable_fullInv rentRepo crypt created s1).
    + by apply (reachable_userInv rentRepo crypt created s1).
Qed.

End RegisteredObjects.

(** ** The elapsed time *)

(** X18: [diffHours] never returns a negative number, whichever of the two
    dates is the later one: its result is not below zero. *)
Theorem X18_diffHours_not_negative (dt2 dt1 : Date) :
  PrimFloat.ltb (diffHours dt2 dt1) 0 = false.
Proof.
  unfold diffHours. cbv zeta.
  rewrite ltb_spec, abs_spec.
  destruct (Prim2SF _) as [sg|sg| |sg m e]; reflexivity.
Qed.

(** ** The further properties on the concrete run *)

Lemma X1_witness_authenticate :
  authenticate crypt0 "nobody@example.org" "secret" run5 = (Throw UserNotFound, run5) ∧
  authenticate crypt0 "alice@example.org" "secret" run5 = (Normal true, run5) ∧
  authenticate crypt0 "alice@example.org" "wrong" run5 = (Normal false, run5).
Proof.
  destruct (X1_authenticate_contract crypt0 run5 "nobody@example.org" "secret")
    as [Habsent _].
  destruct (X1_authenticate_contract crypt0 run5 "alice@example.org" "secret")
    as [_ Hgood].
  destruct (X1_authenticate_contract crypt0 run5 "alice@example.org" "wrong")
    as [_ Hbad].
  assert (∃ u, u ∈ users run5 ∧ email (userAt run5 u) = "alice@example.org") as Hex.
  { exists 0%nat. split; [eval_elem | by vm_compute]. }
  split; [|split].
  - apply Habsent. intros u Hu. eval_in Hu. destruct Hu as [<-|[]]. by vm_compute.
  - destruct (Hgood Hex) as (u & Hu & _ & _ & ->).
    eval_in Hu. destruct Hu as [<-|[]]. by vm_compute.
  - destruct (Hbad Hex) as (u & Hu & _ & _ & ->).
    eval_in Hu. destruct Hu as [<-|[]]. by vm_compute.
Defined.



Lemma X4_witness_already_returned :
  (∀ rent, rent ∈ rents run6 → ¬ openRentFor run6 "b-1" "alice@example.org" rent) ∧
  returnBike t1 "b-1" "alice@example.org" run6 = (Throw RentNotFound, run6).
Proof.
  assert (∀ rent, rent ∈ rents run6 → ¬ openRentFor run6 "b-1" "alice@example.org" rent)
    as Hnone.
  { intros rent Hin (_ & _ & Hend). eval_in Hin. destruct Hin as [<-|[]]. done. }
  split; [done |].
  by apply (X4_returnBike_not_found run6 t1 "b-1" "alice@example.org").
Defined.

Lemma X5_witness_return_twice :
  rents run5 !! 0%nat = Some (mkRent 0 0 t0 None) ∧
  ∃ fee s1, returnBike t1 "b-1" "alice@example.org" run5 = (Normal fee, s1) ∧
            returnBike t1 "b-1" "alice@example.org" s1 = (Throw RentNotFound, s1).
Proof.
  assert (rents run5 !! 0%nat = Some (mkRent 0 0 t0 None)) as Hi by by vm_compute.
  split; [done |].
  destruct (X5_returnBike_twice run5 t1 "b-1" "alice@example.org" 0 _ Hi)
    as (fee & s1 & Hfirst & Hsecond).
  - by vm_compute.
  - intros j y Hj _. apply lookup_lt_Some in Hj.
    change (length (rents run5)) with 1%nat in Hj. lia.
  - exists fee, s1. split; [done | apply Hsecond].
Defined.

Lemma X6_witness_rent :
  getBikeById "b-1" run4 = (Normal 0%nat, run4) ∧
  available (bikeAt run4 0) = true ∧
  getUserByEmail "alice@example.org" run4 = (Normal (Some 0%nat), run4) ∧
  ∃ s', rentBike t0 "b-1" "alice@example.org" run4 = (Normal tt, s') ∧
        rents s' = [mkRent 0 0 t0 None] ∧
        available (bikeAt s' 0) = false.
Proof.
  assert (getBikeById "b-1" run4 = (Normal 0%nat, run4)) as Hb by by vm_compute.
  assert (available (bikeAt run4 0) = true) as Hav by by vm_compute.
  assert (getUserByEmail "alice@example.org" run4 = (Normal (Some 0%nat), run4))
    as Hu by by vm_compute.
  do 3 (split; [done |]).
  destruct (X6_rentBike_success run4 t0 "b-1" "alice@example.org" 0 0 Hb Hav Hu)
    as (s' & Hrun & Hrents & Hbike & _).
  exists s'. split; [done |]. split; [by rewrite Hrents |]. by rewrite Hbike.
Defined.

Lemma X7_witness_rent_then_return :
  (∀ rent, rent ∈ rents run4 → ¬ openRentFor run4 "b-1" "alice@example.org" rent) ∧
  ∃ s1 s2, rentBike t0 "b-1" "alice@example.org" run4 = (Normal tt, s1) ∧
           returnBike t1 "b-1" "alice@example.org" s1 = (Normal 25%float, s2) ∧
           bikeAt s2 0 = bikeAt run4 0 ∧
           rents s2 = [mkRent 0 0 t0 (Some t1)].
Proof.
  assert (∀ rent, rent ∈ rents run4 → ¬ openRentFor run4 "b-1" "alice@example.org" rent)
    as Hnone.
  { intros rent Hin. eval_in Hin. done. }
  split; [done |].
  destruct (X7_rent_then_return run4 t0 t1 "b-1" "alice@example.org" 0 0)
    as (s1 & s2 & Hrent & Hreturn & Hbikes & Hrents & _);
    [by vm_compute | by vm_compute | by vm_compute | done |].
  exists s1, s2. split; [done |]. split; [exact Hreturn |].
  split; [apply Hbikes | by rewrite Hrents].
Defined.

Lemma X9_witness_empty_repository :
  fake_rents new_FakeRentRepo = [] ∧
  findOpenRentsFor new_FakeRentRepo (userObjs run5) "alice@example.org" = [].
Proof.
  split; [done |].
  destruct (X9_FakeRentRepo_filter new_FakeRentRepo (userObjs run5) "alice@example.org")
    as (_ & _ & Hempty).
  by apply Hempty.
Defined.

Lemma X10_witness_renter_removed :
  (∃ u, u ∈ users run5 ∧ email (userAt run5 u) = "alice@example.org") ∧
  ∃ s', removeUser new_FakeRentRepo "alice@example.org" run5 = (Normal tt, s') ∧
        length (users s') = 0%nat ∧
        rents s' = [mkRent 0 0 t0 None].
Proof.
  assert (∃ u, u ∈ users run5 ∧ email (userAt run5 u) = "alice@example.org") as Hex.
  { exists 0%nat. split; [eval_elem | by vm_compute]. }
  split; [done |].
  destruct (X10_removeUser_fake_repo_never_blocks run5 "alice@example.org")
    as [_ Hremoved].
  destruct (Hremoved Hex) as (s' & Hrun & Hlen & Hrents & _).
  exists s'. split; [done |]. split; [by rewrite Hlen | by rewrite Hrents].
Defined.

Lemma X11_witness_register_again :
  uniqueEmails run2 ∧
  ∃ s' s'', removeUser new_FakeRentRepo "alice@example.org" run2 = (Normal tt, s') ∧
            findUser "alice@example.org" s' = (Throw UserNotFound, s') ∧
            registerUser crypt0 "u-2" 0 s' = (Normal "u-2", s'').
Proof.
  assert (uniqueEmails run2) as Huniq.
  { intros i j u v Hi Hj _.
    apply lookup_lt_Some in Hi, Hj.
    change (length (users run2)) with 1%nat in Hi, Hj. lia. }
  split; [done |].
  set (s' := (removeUser new_FakeRentRepo "alice@example.org" run2).2).
  assert (removeUser new_FakeRentRepo "alice@example.org" run2 = (Normal tt, s'))
    as Hrun by by vm_compute.
  destruct (X11_removeUser_frees_email new_FakeRentRepo crypt0 run2
              "alice@example.org" "u-2" 0 s' Huniq Hrun)
    as (Hfind & _ & s'' & Hreg & _); [by vm_compute |].
  exists s', s''. done.
Defined.

Lemma X12_witness_bike_lookup :
  getBikeById "b-1" run5 = (Normal 0%nat, run5) ∧
  getBikeById "b-9" run5 = (Throw BikeNotFound, run5).
Proof.
  destruct (X12_getBikeById_contract run5 "b-1") as (_ & Hfound & _).
  destruct (X12_getBikeById_contract run5 "b-9") as (Hmissing & _).
  split.
  - apply (Hfound 0%nat 0%nat); [by vm_compute | by vm_compute |].
    intros j r Hlt. lia.
  - apply Hmissing. intros r Hr. eval_in Hr. destruct Hr as [<-|[]]. by vm_compute.
Defined.

Lemma X13_witness_registered_again :
  ∃ s', registerBike "b-7" 0 run5 = (Normal "b-7", s') ∧
        bikes s' = [0%nat; 0%nat] ∧
        getBikeById "b-7" s' = (Normal 0%nat, s') ∧
        getBikeById "b-1" s' = (Throw BikeNotFound, s').
Proof.
  destruct (X13_registerBike_again run5 "b-1" "b-7" 0)
    as (_ & s' & Hreg & Hbikes & Hnew & Hold).
  - eval_elem.
  - by vm_compute.
  - done.
  - intros r Hr Hne. eval_in Hr. by destruct Hr as [<-|[]].
  - intros r Hr Hne. eval_in Hr. by destruct Hr as [<-|[]].
  - exists s'. split; [done |]. split; [by rewrite Hbikes |]. done.
Defined.

Lemma X15_witness_closed_rent_kept :
  rtc (step new_FakeRentRepo crypt0 (λ _, True)) run5 run6 ∧
  bikes run5 `prefix_of` bikes run6 ∧
  ∃ r', rents run6 !! 0%nat = Some r' ∧ rent_start r' = t0 ∧ rent_bike r' = 0%nat.
Proof.
  assert (rtc (step new_FakeRentRepo crypt0 (λ _, True)) run5 run6) as Hrun.
  { apply rtc_once. unfold run6. apply step_returnBike. }
  split; [done |].
  destruct (X15_history_is_kept new_FakeRentRepo crypt0 (λ _, True) run5 run6 Hrun)
    as [Hbikes Hrents].
  split; [done |].
  destruct (Hrents 0%nat (mkRent 0 0 t0 None)) as (r' & Hr' & Hb & _ & Hs & _);
    [by vm_compute |].
  exists r'. done.
Defined.

Lemma X16_witness_run5_users :
  reachable new_FakeRentRepo crypt0 (λ _, True) run5 ∧ NoDup (users run5).
Proof.
  assert (reachable new_FakeRentRepo crypt0 (λ _, True) run5) as Hreach
    by by apply run5_reachable.
  split; [done |].
  by destruct (X16_reachable_users_distinct new_FakeRentRepo crypt0 (λ _, True)
                 run5 Hreach) as [Hnodup _].
Defined.

Lemma X17_witness_run5_registered :
  reachable new_FakeRentRepo crypt0 (λ _, True) run5 ∧
  (∃ i, bike_id (bikeAt run5 0) = Some i) ∧
  rent_bike (mkRent 0 0 t0 None) ∈ bikes run5.
Proof.
  assert (reachable new_FakeRentRepo crypt0 (λ _, True) run5) as Hreach
    by by apply run5_reachable.
  split; [done |].
  destruct (X17_reachable_registered_objects new_FakeRentRepo crypt0 (λ _, True)
              run5 Hreach) as (Hb & _ & Hr).
  split; [apply Hb; eval_elem | apply Hr; eval_elem].
Defined.

(** ** Returning a bike that was registered again *)

(** X19: [returnBike] reads the identifier through the rent's reference to
    the bike object.  After a rented bike is registered again under a new
    identifier, [returnBike] with the identifier it was rented under throws
    RentNotFoundError (no other rented bike carries it), and [returnBike]
    with the new identifier succeeds. *)
Theorem X19_return_after_registerBike_again
    (s : App) (now : Date) (oldId newId userEmail : string) (i : nat) (rent : Rent) :
  rents s !! i = Some rent →
  openRentFor s oldId userEmail rent →
  oldId ≠ newId →
  (∀ y, y ∈ rents s → rent_bike y ≠ rent_bike rent →
        bike_id (bikeAt s (rent_bike y)) ≠ Some oldId) →
  ∃ s', registerBike newId (rent_bike rent) s = (Normal newId, s') ∧
        returnBike now oldId userEmail s' = (Throw RentNotFound, s') ∧
        ∃ fee s'', returnBike now newId userEmail s' = (Normal fee, s'').
Proof.
  intros Hi (Hid & Hemail & Hend) Hne Hothers.
  set (b := rent_bike rent) in *.
  eexists. split; [apply registerBike_run |].
  set (s' := pushBike b _).
  assert (∀ r, bike_id (bikeAt s' r) =
               if decide (b = r) then Some newId else bike_id (bikeAt s r)) as Hids.
  { intros r. subst s'. change (bikeAt (pushBike b ?t) r) with (bikeAt t r).
    rewrite bikeAt_updBike. by destruct (decide (b = r)). }
  split.
  - rewrite returnBike_run.
    assert (findSlot (rentMatches s' oldId userEmail) (rents s') = None) as ->; [|done].
    apply findSlot_None. intros y Hy. apply rentMatches_false.
    intros (Hyid & _ & _). rewrite Hids in Hyid.
    destruct (decide (b = rent_bike y)) as [Heq|Hdiff]; [congruence |].
    apply (Hothers y); [exact Hy | | done].
    intros Heq. apply Hdiff. symmetry. exact Heq.
  - rewrite returnBike_run.
    destruct (findSlot_is_Some (rentMatches s' newId userEmail) (rents s') rent)
      as (j & y & ->); [by eapply list_elem_of_lookup_2 | | by eauto].
    apply rentMatches_true. split; [|done].
    rewrite Hids. by case_decide.
Qed.

Lemma X19_witness_rented_bike_registered_again :
  rents run5 !! 0%nat = Some (mkRent 0 0 t0 None) ∧
  ∃ s', registerBike "b-7" 0 run5 = (Normal "b-7", s') ∧
        returnBike t1 "b-1" "alice@example.org" s' = (Throw RentNotFound, s') ∧
        ∃ fee s'', returnBike t1 "b-7" "alice@example.org" s' = (Normal fee, s'').
Proof.
  assert (rents run5 !! 0%nat = Some (mkRent 0 0 t0 None)) as Hi by by vm_compute.
  split; [done |].
  apply (X19_return_after_registerBike_again run5 t1 "b-1" "b-7" "alice@example.org"
           0 (mkRent 0 0 t0 None) Hi).
  - by vm_compute.
  - done.
  - intros y Hy Hdiff. eval_in Hy. by destruct Hy as [<-|[]].
Defined.

(** ** [registerUser] calls that overlap at the [await] *)

Section Interleaving.

Context {R : Type} `{RentRepo R}.
Variable rentRepo : R.
Variable crypt : Crypt.
Variable created : Bike → Prop.

Implicit Types (s : App) (u user : ref) (newId : string).

Lemma registerUser_begin_run s newId user :
  registerUser_begin newId user s =
    if existsb (userWithEmail s (email (userAt s user))) (users s)
    then (Throw DuplicateUser, s)
    else (Normal (password (userAt s user)),
          updUser user (set_user_id (Some newId)) s).
Proof.
  unfold registerUser_begin.
  unfold bind at 1. unfold bind at 1. unfold gets at 1.
  rewrite duplicate_loop.
  destruct (existsb _ _); [done |].
  unfold bind, modify, gets. simpl.
  rewrite userAt_updUser. by destruct (decide (user = user)).
Qed.

Lemma registerUser_resume_run s newId user h :
  registerUser_resume newId user h s =
    (Normal newId, pushUser user (updUser user (set_password h) s)).
Proof. reflexivity. Qed.

Lemma email_updUser s r f r' :
  (∀ x, email (f x) = email x) →
  email (userAt (updUser r f s) r') = email (userAt s r').
Proof.
  intros Hf. rewrite userAt_updUser. by destruct (decide (r = r')) as [->|].
Qed.

Lemma existsb_pointwise {A} (p q : A → bool) (l : list A) :
  (∀ x, p x = q x) → existsb p l = existsb q l.
Proof.
  intros Hpq. induction l as [|a l IH]; simpl; [done |]. by rewrite Hpq, IH.
Qed.

(** X20: the duplicate check and the push of [registerUser] are separated
    by the [await].  The call is its first part followed by its second
    part; and when a second call for a user with the same email (or for
    the same object) starts while the first is suspended, both calls pass
    the check, both return their identifier, and both users are stored:
    the collection then holds two users with one email. *)
Theorem X20_overlapping_registerUser s id1 id2 u1 u2 :
  (registerUser crypt id1 u1 s =
     (let* pw := registerUser_begin id1 u1 in
      registerUser_resume id1 u1 (encrypt crypt pw)) s)
  ∧
  ((∀ u, u ∈ users s → email (userAt s u) ≠ email (userAt s u1)) →
   email (userAt s u2) = email (userAt s u1) →
   ∃ pw1 s1 pw2 s2 s3 s4,
     registerUser_begin id1 u1 s = (Normal pw1, s1) ∧
     registerUser_begin id2 u2 s1 = (Normal pw2, s2) ∧
     registerUser_resume id1 u1 (encrypt crypt pw1) s2 = (Normal id1, s3) ∧
     registerUser_resume id2 u2 (encrypt crypt pw2) s3 = (Normal id2, s4) ∧
     users s4 = users s ++ [u1; u2] ∧
     email (userAt s4 u1) = email (userAt s u1) ∧
     email (userAt s4 u2) = email (userAt s u1)).
Proof.
  split.
  - unfold bind. rewrite registerUser_run, registerUser_begin_run.
    by destruct (existsb _ _).
  - intros Hnew Hsame.
    assert (existsb (userWithEmail s (email (userAt s u1))) (users s) = false) as Hex.
    { destruct (existsb _ _) eqn:Hex; [|done].
      apply existsb_userWithEmail in Hex as (u & Hu & He). destruct (Hnew u Hu He). }
    set (s1 := updUser u1 (set_user_id (Some id1)) s).
    assert (∀ r, email (userAt s1 r) = email (userAt s r)) as Hemail1
      by (intros r; by apply email_updUser).
    assert (existsb (userWithEmail s1 (email (userAt s1 u2))) (users s1) = false) as Hex1.
    { rewrite Hemail1, Hsame. change (users s1) with (users s). rewrite <- Hex.
      apply existsb_pointwise. intros r. unfold userWithEmail. by rewrite Hemail1. }
    set (s2 := updUser u2 (set_user_id (Some id2)) s1).
    set (s3 := pushUser u1
                 (updUser u1 (set_password (encrypt crypt (password (userAt s u1)))) s2)).
    set (s4 := pushUser u2
                 (updUser u2 (set_password (encrypt crypt (password (userAt s1 u2)))) s3)).
    assert (∀ r, email (userAt s4 r) = email (userAt s r)) as Hemail4.
    { intros r. subst s4 s3 s2.
      change (userAt (pushUser ?x ?t) r) with (userAt t r).
      rewrite email_updUser by done.
      change (userAt (pushUser ?x ?t) r) with (userAt t r).
      rewrite !email_updUser by done. apply Hemail1. }
    exists (password (userAt s u1)), s1, (password (userAt s1 u2)), s2, s3, s4.
    split; [by rewrite registerUser_begin_run, Hex |].
    split; [by rewrite registerUser_begin_run, Hex1 |].
    split; [apply registerUser_resume_run |].
    split; [apply registerUser_resume_run |].
    split; [simpl; by rewrite <- app_assoc |].
    by rewrite !Hemail4.
Qed.



End Interleaving.

Lemma X20_witness_alice_twice :
  (∀ u, u ∈ users run1 → email (userAt run1 u) ≠ email (userAt run1 0)) ∧
  ∃ s4, users s4 = [0%nat; 0%nat] ∧ email (userAt s4 0) = "alice@example.org".
Proof.
  assert (∀ u, u ∈ users run1 → email (userAt run1 u) ≠ email (userAt run1 0)) as Hnew.
  { intros u Hu. eval_in Hu. done. }
  split; [done |].
  destruct (X20_overlapping_registerUser crypt0 run1 "u-1" "u-2" 0 0) as [_ Hrace].
  destruct (Hrace Hnew eq_refl)
    as (pw1 & s1 & pw2 & s2 & s3 & s4 & _ & _ & _ & _ & Husers & Hemail & _).
  exists s4. split; [by rewrite Husers |]. by rewrite Hemail.
Defined.

